(** * Tunisia survey sampling: the sampling engine of [app.py]

    The script draws either a simple random sample without replacement
    (branch "SRSWOR") or a proportionally allocated stratified sample (branch
    "Stratified") from a sampling frame loaded from a spreadsheet.  This file
    embeds the two sampling branches and establishes their properties.

    Conventions of the embedding.

    - A worksheet is the list of its data rows (the header row apart); a cell
      is blank, a number or a text.  [load_data] is [pd.read_excel] with its
      defaults: a blank cell and a text that is one of pandas' missing-value
      markers ([STR_NA_VALUES]: "NA", "None", "null", "nan", ...) become a
      missing value (NaN); a column whose remaining cells all read as
      numbers becomes a column of numbers, texts included; in any other
      column the cells keep their values.  The rows are labelled [0 .. N-1].
    - A cell of the data frame is therefore [None] (missing) or a scalar, a
      number or a text.  A number is the rational that the cell holds or
      that its text denotes in decimal notation, in lowest terms; the
      rounding of such a number to binary64 is not written out, nor is the
      range of 64-bit integers.  Cells that hold booleans or dates, and
      texts that pandas reads as booleans, as infinities or as not-a-number
      values other than the markers, are outside the model.
    - [groupby] drops the rows whose key is missing and sorts the keys:
      numbers by value, texts by code point, numbers before texts in a column
      that holds both.  [df[c] == k] selects no row whose cell is missing.
      The [N] of the allocation is [strata['Nh'].sum()], the number of rows
      with a value in the stratification column, which is less than
      [len(df)] when cells are missing.
    - A data frame is the list of its rows in positional order; each row
      carries its index label.
    - Integer columns ([Nh], [nh]) and the requested size [n] are [Z].  The
      quantities that occur ([n * Nh], sums of [nh]) are below [2^40] for any
      frame a spreadsheet can hold (at most [2^20] rows), far from the
      wrap-around of 64-bit integers, which is therefore not written out.
    - [n * Nh / N] is a binary64 quotient of two exact integers, rounded by
      [np.round] (ties to even).  [np_round_div] computes that rounding on the
      exact quotient and is what the allocation below uses.  [f64_round_div]
      computes it through the IEEE-754 division of the Standard Library's
      [SpecFloat]; the two agree whenever [0 <= n * Nh < 2^52]
      ([f64_round_div_exact]), hence on every frame of fewer than [2^26]
      rows with [0 <= n <= len(df)].
    - [df.sample(n=.., random_state=42)] builds a fresh generator
      [RandomState(42)] and keeps the first [n] positions of its
      [permutation(len(df))].  The generator is the interface [NumpyRandom].
    - Exceptions are the constructors of [exn]; a computation is a function
      from the ambient [world] (the global [df], numpy's global generator) to
      a result and a new world. *)

From Stdlib Require Import ZArith QArith Lia String Ascii List Sorting.Permutation.
From Stdlib Require Import Structures.OrderedTypeEx.
From Stdlib Require Import Floats.SpecFloat.
From stdpp Require Import base tactics option list list_numbers sorting strings.

Close Scope Q_scope.
Open Scope Z_scope.

(** ** Data model *)

(** A cell of the worksheet, as the reader of the file hands it on. *)
Inductive XlsxCell := Blank | Number (q : Q) | Text (s : string).
Arguments Number q%_Q.

(** A scalar of a column of the data frame; a number is kept in lowest
    terms. *)
Inductive Scalar := Num (q : Q) | Str (s : string).
Arguments Num q%_Q.

Global Instance Q_eq_dec : EqDecision Q.
Proof. solve_decision. Defined.

Global Instance Scalar_eq_dec : EqDecision Scalar.
Proof. solve_decision. Defined.

(** The columns of the sampling frame that the script reads, over the
    cells [A] of a worksheet or of a data frame. *)
Record Block (A : Type) := {
  Region : A;
  GOVERNORATE : A;
  DELEGATION : A;
  Area : A;
  pop_block : A
}.
Arguments Region {A} _.
Arguments GOVERNORATE {A} _.
Arguments DELEGATION {A} _.
Arguments Area {A} _.
Arguments pop_block {A} _.

(** Column names usable for stratification (the values of [STRAT_VAR_MAP]). *)
Inductive Column := ColRegion | ColGOVERNORATE | ColDELEGATION.

(** The entries of the "Stratification Variable" select box (the keys of
    [STRAT_VAR_MAP]). *)
Inductive StratDisplay := DisplayRegion | DisplayGovernorate | DisplayDelegation.

Definition STRAT_VAR_MAP (d : StratDisplay) : Column :=
  match d with
  | DisplayRegion => ColRegion
  | DisplayGovernorate => ColGOVERNORATE
  | DisplayDelegation => ColDELEGATION
  end.

(** [row[c]] *)
Definition cell {A} (c : Column) (b : Block A) : A :=
  match c with
  | ColRegion => Region b
  | ColGOVERNORATE => GOVERNORATE b
  | ColDELEGATION => DELEGATION b
  end.

(** A row of a data frame: index label and contents, a missing value being
    [None]. *)
Record Row := { label : nat; block : Block (option Scalar) }.

Abbreviation DataFrame := (list Row).

(** ** Reading the worksheet *)

(** The texts that [pd.read_excel] reads as missing values by default. *)
Definition STR_NA_VALUES : list string :=
  [ "-1.#IND"; "1.#QNAN"; "1.#IND"; "-1.#QNAN"; "#N/A N/A"; "#N/A"; "N/A";
    "n/a"; "NA"; "<NA>"; "#NA"; "NULL"; "null"; "NaN"; "-NaN"; "nan"; "-nan";
    "None"; EmptyString ].

(** A cell that is read as a missing value: a blank cell (which reaches the
    parser as the empty text) or a missing-value marker. *)
Definition isna (x : XlsxCell) : bool :=
  match x with
  | Blank => true
  | Number _ => false
  | Text s => bool_decide (s ∈ STR_NA_VALUES)
  end.

(** ASCII white space, which the numeric parser skips at both ends. *)
Definition is_space (a : ascii) : bool :=
  let n := Z.of_N (N_of_ascii a) in
  bool_decide (9 ≤ n ≤ 13 ∨ n = 32).

Definition digit (a : ascii) : option Z :=
  let n := Z.of_N (N_of_ascii a) in
  if decide (48 ≤ n ≤ 57) then Some (n - 48) else None.

(** The leading digits of a text: their value on top of [acc], their number
    on top of [count], and the rest of the text. *)
Fixpoint span_digits (acc : Z) (count : nat) (s : list ascii)
  : Z * nat * list ascii :=
  match s with
  | [] => (acc, count, [])
  | a :: s' =>
      match digit a with
      | Some d => span_digits (10 * acc + d) (S count) s'
      | None => (acc, count, s)
      end
  end.

(** An optional sign: whether it is a minus, and the rest of the text. *)
Definition sign_of (s : list ascii) : bool * list ascii :=
  match s with
  | [] => (false, [])
  | a :: s' =>
      if Ascii.eqb a "-" then (true, s')
      else if Ascii.eqb a "+" then (false, s')
      else (false, s)
  end.

Fixpoint lstrip (s : list ascii) : list ascii :=
  match s with
  | [] => []
  | a :: s' => if is_space a then lstrip s' else s
  end.

Definition strip (s : list ascii) : list ascii :=
  reverse (lstrip (reverse (lstrip s))).

(** [m * 10^e] in lowest terms. *)
Definition scale10 (m e : Z) : Q :=
  Qred (if decide (0 ≤ e) then inject_Z (m * 10 ^ e)
        else Qmake m (Z.to_pos (10 ^ (- e)))).

(** The number that a text denotes for the numeric parser of pandas
    ([xstrtod] of its tokenizer): white space, an optional sign, decimal
    digits with an optional point among them, an optional exponent, white
    space; [None] for any other text. *)
Definition xstrtod (s : string) : option Q :=
  let '(negative, s1) := sign_of (strip (list_ascii_of_string s)) in
  let '(n1, c1, s2) := span_digits 0 0 s1 in
  let '(m, c2, s3) :=
    match s2 with
    | a :: s2' => if Ascii.eqb a "." then span_digits n1 0 s2' else (n1, 0%nat, s2)
    | [] => (n1, 0%nat, [])
    end in
  if decide (c1 + c2 = 0)%nat then None
  else
    let exponent : option Z :=
      match s3 with
      | [] => Some 0
      | a :: s3' =>
          if Ascii.eqb a "e" || Ascii.eqb a "E" then
            let '(eneg, s4) := sign_of s3' in
            match span_digits 0 0 s4 with
            | (e, S _, []) => Some (if eneg then - e else e)
            | _ => None
            end
          else None
      end in
    (λ e, scale10 (if negative then - m else m) (e - Z.of_nat c2)) <$> exponent.

(** The number that a cell holds or denotes. *)
Definition as_number (x : XlsxCell) : option Q :=
  match x with
  | Blank => None
  | Number q => Some (Qred q)
  | Text s => xstrtod s
  end.

(** The numeric conversion of a column goes through: every cell is missing
    or reads as a number. *)
Definition numeric_column (cells : list XlsxCell) : bool :=
  forallb (λ x, isna x || bool_decide (is_Some (as_number x))) cells.

(** The value of a cell in the data frame, in a column whose numeric
    conversion went through ([numeric]) or did not. *)
Definition convert_cell (numeric : bool) (x : XlsxCell) : option Scalar :=
  if isna x then None
  else if numeric then Num <$> as_number x
  else match x with
       | Blank => None
       | Number q => Some (Num (Qred q))
       | Text s => Some (Str s)
       end.

(** For each column of the worksheet, whether its numeric conversion goes
    through. *)
Definition numeric_columns (sheet : list (Block XlsxCell)) : Block bool :=
  {| Region := numeric_column (Region <$> sheet);
     GOVERNORATE := numeric_column (GOVERNORATE <$> sheet);
     DELEGATION := numeric_column (DELEGATION <$> sheet);
     Area := numeric_column (Area <$> sheet);
     pop_block := numeric_column (pop_block <$> sheet) |}.

(** A row of the worksheet, converted column by column. *)
Definition convert_block (numeric : Block bool) (b : Block XlsxCell)
  : Block (option Scalar) :=
  {| Region := convert_cell (Region numeric) (Region b);
     GOVERNORATE := convert_cell (GOVERNORATE numeric) (GOVERNORATE b);
     DELEGATION := convert_cell (DELEGATION numeric) (DELEGATION b);
     Area := convert_cell (Area numeric) (Area b);
     pop_block := convert_cell (pop_block numeric) (pop_block b) |}.

(** [pd.read_excel]: the converted rows of the sheet under a [RangeIndex]. *)
Definition load_data (uploaded_file : list (Block XlsxCell)) : DataFrame :=
  let numeric := numeric_columns uploaded_file in
  imap (λ i b, {| label := i; block := convert_block numeric b |}) uploaded_file.

(** [row[c]] for a row of a data frame. *)
Definition key_of (c : Column) (r : Row) : option Scalar := cell c (block r).

(** [df[df[c] == k]]: boolean-mask selection, labels and order kept; a
    missing cell equals no key. *)
Definition select_eq (c : Column) (k : Scalar) (df : DataFrame) : DataFrame :=
  filter (λ r, key_of c r = Some k) df.

(** [df[df[c].notna()]]: the rows with a value in column [c], those that
    [groupby(c)] keeps. *)
Definition notna (c : Column) (df : DataFrame) : DataFrame :=
  filter (λ r, is_Some (key_of c r)) df.

(** ** Grouping *)

(** Order of the group keys: numbers by value, texts lexicographically by
    code point, numbers before texts. *)
Definition key_le (a b : Scalar) : Prop :=
  match a, b with
  | Num x, Num y => Qle x y
  | Num _, Str _ => True
  | Str _, Num _ => False
  | Str s, Str t => String.leb s t = true
  end.

Global Instance key_le_dec a b : Decision (key_le a b).
Proof. destruct a, b; simpl; unfold Qle; apply _. Defined.

(** The distinct values of a column, missing values dropped, sorted: the
    group keys of [df.groupby(c)]. *)
Definition group_keys (c : Column) (df : DataFrame) : list Scalar :=
  merge_sort key_le (remove_dups (omap (key_of c) df)).

(** A row of the [strata] frame: columns [strat_var], [Nh], [nh]. *)
Record Stratum := { key : Scalar; Nh : Z; nh : Z }.

(** Number of rows of a group, the [Nh] of its key. *)
Definition group_size (c : Column) (df : DataFrame) (k : Scalar) : Z :=
  Z.of_nat (length (select_eq c k df)).

(** [df.groupby(c).size().reset_index(name='Nh')]: one row per group key,
    in key order, with the number of rows of the group. *)
Definition groupby_size (c : Column) (df : DataFrame) : list (Scalar * Z) :=
  (λ k, (k, group_size c df k)) <$> group_keys c df.

(** Sum of an integer column. *)
Fixpoint sumZ (l : list Z) : Z :=
  match l with
  | [] => 0
  | x :: l => x + sumZ l
  end.

(** [strata['Nh'].sum()], the [N] of the allocation. *)
Definition Nh_sum (c : Column) (df : DataFrame) : Z :=
  sumZ (snd <$> groupby_size c df).

(** ** Proportional allocation *)

(** [np.round(a / b).astype(int)] for integers [a] and [b > 0]: the quotient
    rounded to the nearest integer, ties to the even neighbour. *)
Definition np_round_div (a b : Z) : Z :=
  let q := a / b in
  let r := a mod b in
  match 2 * r ?= b with
  | Lt => q
  | Gt => q + 1
  | Eq => if Z.even q then q else q + 1
  end.

(** Rounding to the nearest integer with ties away from zero, the rule the
    specification names; used for comparison only. *)
Definition round_half_away_div (a b : Z) : Z :=
  let q := Z.abs a / b in
  let r := Z.abs a mod b in
  Z.sgn a * (if 2 * r <? b then q else q + 1).

(** [r] is the integer nearest to [a / b], the even one of the two when
    [a / b] lies halfway. *)
Definition nearest_ties_even (a b r : Z) : Prop :=
  Z.abs (2 * b * r - 2 * a) ≤ b ∧ (Z.abs (2 * b * r - 2 * a) = b → Z.even r = true).

(** [strata['nh'] = np.round(n * strata['Nh'] / strata['Nh'].sum()).astype(int)] *)
Definition assign_nh (n : Z) (groups : list (Scalar * Z)) : list Stratum :=
  let N := sumZ (snd <$> groups) in
  (λ g, {| key := fst g; Nh := snd g; nh := np_round_div (n * snd g) N |}) <$> groups.

(** The [strata] frame before the residual correction, row by row. *)
Definition stratum_of (c : Column) (n : Z) (df : DataFrame) (k : Scalar) : Stratum :=
  {| key := k; Nh := group_size c df k;
     nh := np_round_div (n * group_size c df k) (Z.of_nat (length (notna c df))) |}.
(** ** The binary64 computation of a share *)

(** An integer as a binary64 number (exact below [2^53]). *)
Definition f64_of_Z (z : Z) : spec_float := binary_normalize 53 1024 z 0 false.

(** [np.round(x).astype(int)] on a binary64 number: the nearest integer,
    ties to even; undefined on infinities and NaN. *)
Definition f64_rint (x : spec_float) : option Z :=
  match x with
  | S754_zero _ => Some 0
  | S754_finite s m e =>
      let v := match e with
               | Zneg p => np_round_div (Zpos m) (2 ^ Zpos p)
               | _ => Zpos m * 2 ^ e
               end in
      Some (if s then - v else v)
  | _ => None
  end.

(** [np.round(a / b).astype(int)] with the division done in binary64. *)
Definition f64_round_div (a b : Z) : option Z :=
  f64_rint (SFdiv 53 1024 (f64_of_Z a) (f64_of_Z b)).

(** Where the remainder [r] of a division by [m2] lies. *)
Definition loc_rel (r m2 : Z) (l : location) : Prop :=
  match l with
  | loc_Exact => r = 0
  | loc_Inexact Lt => 0 < r ∧ 2 * r < m2
  | loc_Inexact Eq => 0 < r ∧ 2 * r = m2
  | loc_Inexact Gt => 0 < r ∧ m2 < 2 * r
  end.

(** What [astype(int)] leaves for an infinity or a NaN. *)
Definition INT64_MIN : Z := - 2 ^ 63.

(** Line 253 with the quotient taken in binary64, as numpy takes it. *)
Definition assign_nh_f64 (n : Z) (groups : list (Scalar * Z)) : list Stratum :=
  let N := sumZ (snd <$> groups) in
  (λ g, {| key := fst g; Nh := snd g;
           nh := default INT64_MIN (f64_round_div (n * snd g) N) |}) <$> groups.

(** ** Exceptions *)

Inductive exn :=
| NegativeRows          (* ValueError: A negative number of rows requested. *)
| EmptyPopulation       (* ValueError: a must be greater than 0 unless no samples are taken *)
| LargerSample          (* ValueError: Cannot take a larger sample than population when 'replace=False' *)
| TakeOutOfBounds       (* IndexError: indices are out-of-bounds *)
| IndexerOutOfBounds    (* IndexError: single positional indexer is out-of-bounds *)
| NoObjectsToConcatenate. (* ValueError: No objects to concatenate *)

Inductive res (A : Type) := Ok (a : A) | Raise (e : exn).
Arguments Ok {A} a.
Arguments Raise {A} e.

(** [nh] of a row increased by [diff]. *)
Definition add_nh (diff : Z) (s : Stratum) : Stratum :=
  {| key := key s; Nh := Nh s; nh := nh s + diff |}.

(** [strata.iloc[-1, -1] += diff]: the last row's last column ([nh]). *)
Fixpoint iloc_last_add (diff : Z) (strata : list Stratum) : res (list Stratum) :=
  match strata with
  | [] => Raise IndexerOutOfBounds
  | [s] => Ok [add_nh diff s]
  | s :: rest =>
      match iloc_last_add diff rest with
      | Ok rest' => Ok (s :: rest')
      | Raise e => Raise e
      end
  end.

(** Lines 252-257: the allocation table. *)
Definition allocate (c : Column) (n : Z) (df : DataFrame) : res (list Stratum) :=
  let strata := assign_nh n (groupby_size c df) in
  let diff := n - sumZ (nh <$> strata) in
  if decide (diff ≠ 0) then iloc_last_add diff strata else Ok strata.

Global Instance res_ret : MRet res := λ A a, Ok a.
Global Instance res_bind : MBind res := λ A B f m,
  match m with Ok a => f a | Raise e => Raise e end.
Global Instance res_fmap : FMap res := λ A B f m,
  match m with Ok a => Ok (f a) | Raise e => Raise e end.

(** ** The random generator *)

(** numpy's legacy generator, as far as [DataFrame.sample] uses it:
    [seed_state s] is [np.random.RandomState(s)], and [permutation g N] is
    [g.permutation(N)], a shuffled [arange(N)], together with the advanced
    state of [g]. *)
Class NumpyRandom := {
  RandomState : Type;
  seed_state : Z → RandomState;
  permutation : RandomState → nat → list nat * RandomState;
  permutation_Permutation : ∀ g N, (permutation g N).1 ≡ₚ seq 0 N
}.

(** ** The ambient state and computations over it *)

(** The module-level [df] and numpy's global generator [np.random]. *)
Record world `{NumpyRandom} := { df : DataFrame; np_random : RandomState }.

Definition M `{NumpyRandom} (A : Type) : Type := world → res A * world.

Global Instance M_ret `{NumpyRandom} : MRet M := λ A a w, (Ok a, w).
Global Instance M_bind `{NumpyRandom} : MBind M := λ A B f m w,
  match m w with
  | (Ok a, w') => f a w'
  | (Raise e, w') => (Raise e, w')
  end.

Section Engine.
Context {R : NumpyRandom}.

(** Reading the global [df]. *)
Definition get_df : M DataFrame := λ w, (Ok (df w), w).

(** A step that cannot touch the ambient state. *)
Definition lift {A} (r : res A) : M A := λ w, (r, w).

(** [obj.take(indices)]: rows by position. *)
Definition take_rows (obj : DataFrame) (indices : list nat) : res DataFrame :=
  match mapM (λ i, obj !! i) indices with
  | Some rows => Ok rows
  | None => Raise TakeOutOfBounds
  end.

(** [g.choice(pop_size, size=size, replace=False)] *)
Definition choice (g : RandomState) (pop_size size : nat)
  : res (list nat) * RandomState :=
  if decide (pop_size = 0%nat ∧ size ≠ 0%nat) then (Raise EmptyPopulation, g)
  else if decide (pop_size < size)%nat then (Raise LargerSample, g)
  else let '(p, g') := permutation g pop_size in (Ok (firstn size p), g').

(** [obj.sample(n=n, random_state=random_state)].  An integer
    [random_state] seeds a generator of its own; without one the global
    generator is used and advanced. *)
Definition sample (obj : DataFrame) (n : Z) (random_state : option Z)
  : M DataFrame := λ w,
  if decide (n < 0) then (Raise NegativeRows, w)
  else match random_state with
       | Some s =>
           let '(idx, _) := choice (seed_state s) (length obj) (Z.to_nat n) in
           (idx ≫= take_rows obj, w)
       | None =>
           let '(idx, g') := choice (np_random w) (length obj) (Z.to_nat n) in
           (idx ≫= take_rows obj, {| df := df w; np_random := g' |})
       end.

(** Line 158, the SRSWOR branch. *)
Definition srswor (n : Z) : M DataFrame :=
  d ← get_df; sample d n (Some 42).

(** [pd.concat(samples)] *)
Definition pd_concat (samples : list DataFrame) : res DataFrame :=
  match samples with
  | [] => Raise NoObjectsToConcatenate
  | _ => Ok (concat samples)
  end.

(** Lines 259-263: one draw per row of [strata]. *)
Definition draw (strat_var : Column) (strata : list Stratum) : M (list DataFrame) :=
  mapM (λ row, d ← get_df;
               sample (select_eq strat_var (key row) d) (nh row) (Some 42))
       strata.

(** Lines 249-264, the stratified branch: the allocation table and the
    combined sample. *)
Definition stratified (n : Z) (strat_display : StratDisplay)
  : M (list Stratum * DataFrame) :=
  let strat_var := STRAT_VAR_MAP strat_display in
  d ← get_df;
  strata ← lift (allocate strat_var n d);
  samples ← draw strat_var strata;
  final_sample ← lift (pd_concat samples);
  mret (strata, final_sample).

(** The result of [obj.sample(n=n, random_state=s)] for an integer seed. *)
Definition seeded_sample (obj : DataFrame) (n s : Z) : res DataFrame :=
  if decide (n < 0) then Raise NegativeRows
  else (choice (seed_state s) (length obj) (Z.to_nat n)).1 ≫= take_rows obj.

(** The draw for one row of [strata] over the frame [d]. *)
Definition draw_rows (c : Column) (d : DataFrame) (row : Stratum) : res DataFrame :=
  seeded_sample (select_eq c (key row) d) (nh row) 42.

(** The stratified branch as a function of the frame alone. *)
Definition stratified_of (n : Z) (c : Column) (d : DataFrame)
  : res (list Stratum * DataFrame) :=
  strata ← allocate c n d;
  samples ← mapM (draw_rows c d) strata;
  final_sample ← pd_concat samples;
  mret (strata, final_sample).

End Engine.

(** Line 65: the state in which a branch starts, [df] loaded from the sheet
    and the global generator in some state [g]. *)
Definition init_world (R : NumpyRandom) (sheet : list (Block XlsxCell))
    (g : @RandomState R)
  : @world R := {| df := load_data sheet; np_random := g |}.

(** ** Predicates of the statements *)

(** [rows] are the rows of [obj] at the positions [idx], in that order. *)
Definition rows_at (obj : DataFrame) (idx : list nat) (rows : DataFrame) : Prop :=
  Forall2 (λ i r, obj !! i = Some r) idx rows.

(** Every stratum is asked for at least nothing and at most its rows. *)
Definition feasible (strata : list Stratum) : Prop :=
  Forall (λ s, 0 ≤ nh s ≤ Nh s) strata.

Global Instance feasible_dec strata : Decision (feasible strata).
Proof. unfold feasible. apply _. Defined.

(** What the draw for row [s] of [strata] yields when it succeeds: [nh] rows
    of the frame, all of the stratum of [s], with pairwise distinct labels. *)
Definition drawn (c : Column) (d : DataFrame) (s : Stratum) (smp : DataFrame) : Prop :=
  Z.of_nat (length smp) = nh s ∧
  (∀ r, r ∈ smp → r ∈ d ∧ cell c (block r) = Some (key s)) ∧
  NoDup (label <$> smp).

(** ** A concrete generator

    A small deterministic generator: the state is a counter and the
    permutation of [arange(N)] is its rotation by the counter. *)
Definition rot_permutation (g N : nat) : list nat * nat :=
  (rotate g (seq 0 N), S g).

Lemma rot_permutation_Permutation g N : (rot_permutation g N).1 ≡ₚ seq 0 N.
Proof.
  unfold rot_permutation, rotate; simpl.
  rewrite Permutation_app_comm. by rewrite take_drop.
Qed.

Definition RotRandom : NumpyRandom := {|
  RandomState := nat;
  seed_state := Z.to_nat;
  permutation := rot_permutation;
  permutation_Permutation := rot_permutation_Permutation
|}.

(** ** Sample frames *)


Definition mk_block (k : XlsxCell) : Block XlsxCell :=
  {| Region := k; GOVERNORATE := k; DELEGATION := k;
     Area := Text "Urban"; pop_block := Number 1 |}.

(** A sheet with [c] blocks of region [k]. *)
Definition blocks_of (k : XlsxCell) (c : nat) : list (Block XlsxCell) :=
  replicate c (mk_block k).

(** The row of the data frame read from [mk_block] with a value [k]. *)
Definition mk_row (i : nat) (k : Scalar) : Row :=
  {| label := i;
     block := {| Region := Some k; GOVERNORATE := Some k; DELEGATION := Some k;
                 Area := Some (Str "Urban"); pop_block := Some (Num 1) |} |}.

Definition sheet_333 : list (Block XlsxCell) :=
  blocks_of (Text "C") 334 ++ blocks_of (Text "A") 333 ++ blocks_of (Text "B") 333.

Definition sheet_small : list (Block XlsxCell) :=
  blocks_of (Text "a") 3 ++ blocks_of (Text "b") 3 ++ blocks_of (Text "c") 3 ++
  blocks_of (Text "d") 3 ++ blocks_of (Text "e") 1.

Definition sheet_halves : list (Block XlsxCell) :=
  blocks_of (Text "x") 1 ++ blocks_of (Text "y") 1.

Definition sheet_negative : list (Block XlsxCell) :=
  blocks_of (Text "a") 3 ++ blocks_of (Text "b") 3 ++ blocks_of (Text "c") 3 ++
  blocks_of (Text "d") 1.

Definition sheet_single : list (Block XlsxCell) := blocks_of (Text "Tunis") 5.

Definition sheet_integral : list (Block XlsxCell) :=
  blocks_of (Text "A") 4 ++ blocks_of (Text "B") 4 ++ blocks_of (Text "C") 2.

(** Two cells marked "NA", three blocks of region a and one of region b. *)
Definition sheet_missing : list (Block XlsxCell) :=
  blocks_of (Text "NA") 2 ++ blocks_of (Text "a") 3 ++ blocks_of (Text "b") 1.

(** No cell of the stratification columns holds a value. *)
Definition sheet_unread : list (Block XlsxCell) :=
  blocks_of (Text "NA") 1 ++ blocks_of Blank 1 ++ blocks_of (Text "None") 1.

(** Regions given by the codes 9 and 10, entered as text. *)
Definition sheet_codes : list (Block XlsxCell) :=
  blocks_of (Text "9") 1 ++ blocks_of (Text "10") 1.

(** The table and the combined sample of [sheet_small] for [n = 4]. *)
Definition strata_small : list Stratum :=
  [ {| key := Str "a"; Nh := 3; nh := 1 |}; {| key := Str "b"; Nh := 3; nh := 1 |};
    {| key := Str "c"; Nh := 3; nh := 1 |}; {| key := Str "d"; Nh := 3; nh := 1 |};
    {| key := Str "e"; Nh := 1; nh := 0 |} ].

Definition final_small : DataFrame :=
  [ mk_row 0 (Str "a"); mk_row 3 (Str "b"); mk_row 6 (Str "c"); mk_row 9 (Str "d") ].

(** The table and the combined sample of [sheet_missing] for [n = 4]. *)
Definition strata_missing : list Stratum :=
  [ {| key := Str "a"; Nh := 3; nh := 3 |}; {| key := Str "b"; Nh := 1; nh := 1 |} ].

Definition final_missing : DataFrame :=
  [ mk_row 2 (Str "a"); mk_row 3 (Str "a"); mk_row 4 (Str "a"); mk_row 5 (Str "b") ].

(** ** The sample-size input and the previews *)

(** Lines 148 and 227: the initial value of the sample-size input,
    [min(500, len(df))]. *)
Definition default_n (d : DataFrame) : Z := Z.min 500 (Z.of_nat (length d)).

(** [obj.head(k)] for a count [k >= 0] (lines 163 and 287 with [k = 10]):
    the first [k] rows. *)
Definition head (k : nat) (obj : DataFrame) : DataFrame := take k obj.

(** ** Rounding *)

Lemma Zeven_succ_of_odd q : Z.even q = false → Z.even (q + 1) = true.
Proof.
  intros Hq. rewrite Z.even_add. rewrite Hq. reflexivity.
Qed.

Lemma np_round_div_nearest a b :
  0 < b → nearest_ties_even a b (np_round_div a b).
Proof.
  intros Hb. unfold nearest_ties_even, np_round_div.
  pose proof (Z.div_mod a b ltac:(lia)) as Hdm.
  pose proof (Z.mod_pos_bound a b Hb) as Hr.
  set (q := a / b) in *. set (r := a mod b) in *.
  destruct (Z.compare_spec (2 * r) b) as [He|Hl|Hg].
  - destruct (Z.even q) eqn:Hq.
    + split; [lia|done].
    + split; [lia|]. intros _. by apply Zeven_succ_of_odd.
  - split; [lia|]. intros Habs. lia.
  - split; [lia|]. intros Habs. lia.
Qed.

Lemma nearest_ties_even_unique a b r1 r2 :
  0 < b → nearest_ties_even a b r1 → nearest_ties_even a b r2 → r1 = r2.
Proof.
  intros Hb [H1 E1] [H2 E2].
  destruct (decide (r1 = r2)) as [|Hne]; [done|exfalso].
  assert (Hd : r1 = r2 + 1 ∨ r2 = r1 + 1) by nia.
  destruct Hd as [-> | ->].
  - assert (Z.abs (2 * b * (r2 + 1) - 2 * a) = b) as Ha by lia.
    assert (Z.abs (2 * b * r2 - 2 * a) = b) as Hb' by lia.
    specialize (E1 Ha). specialize (E2 Hb').
    rewrite Z.even_add, E2 in E1. discriminate.
  - assert (Z.abs (2 * b * (r1 + 1) - 2 * a) = b) as Ha by lia.
    assert (Z.abs (2 * b * r1 - 2 * a) = b) as Hb' by lia.
    specialize (E1 Hb'). specialize (E2 Ha).
    rewrite Z.even_add, E1 in E2. discriminate.
Qed.

Lemma np_round_div_nonneg a b : 0 ≤ a → 0 < b → 0 ≤ np_round_div a b.
Proof.
  intros Ha Hb. unfold np_round_div.
  pose proof (Z.div_pos a b Ha Hb).
  destruct (2 * (a mod b) ?= b); [destruct (Z.even _)| |]; lia.
Qed.

Lemma np_round_div_exact c b : 0 < b → np_round_div (c * b) b = c.
Proof.
  intros Hb. unfold np_round_div.
  rewrite Z.div_mul by lia. rewrite Z.mod_mul by lia.
  destruct (Z.compare_spec (2 * 0) b); lia.
Qed.

Lemma np_round_div_le a b c : 0 < b → a ≤ c * b → np_round_div a b ≤ c.
Proof.
  intros Hb Hle.
  destruct (decide (a = c * b)) as [->|Hne].
  { rewrite np_round_div_exact; lia. }
  unfold np_round_div.
  pose proof (Z.div_mod a b ltac:(lia)) as Hdm.
  pose proof (Z.mod_pos_bound a b Hb) as Hr.
  assert (a / b < c) by nia.
  destruct (2 * (a mod b) ?= b); [destruct (Z.even _)| |]; lia.
Qed.

(** ** The binary64 quotient *)

Lemma digits2_pos_bounds p :
  2 ^ (Zpos (digits2_pos p) - 1) ≤ Zpos p < 2 ^ Zpos (digits2_pos p).
Proof.
  induction p as [p IH|p IH|]; simpl digits2_pos.
  - rewrite Pos2Z.inj_succ.
    replace (Z.succ (Zpos (digits2_pos p)) - 1) with (Z.succ (Zpos (digits2_pos p) - 1)) by lia.
    rewrite !Z.pow_succ_r by lia. lia.
  - rewrite Pos2Z.inj_succ.
    replace (Z.succ (Zpos (digits2_pos p)) - 1) with (Z.succ (Zpos (digits2_pos p) - 1)) by lia.
    rewrite !Z.pow_succ_r by lia. lia.
  - simpl. lia.
Qed.

Lemma Zdigits2_unique z d :
  0 < d → 2 ^ (d - 1) ≤ z < 2 ^ d → Zdigits2 z = d.
Proof.
  intros Hd [Hlo Hhi].
  assert (0 < z) by (pose proof (Z.pow_pos_nonneg 2 (d - 1)); lia).
  destruct z as [|p|p]; try lia. simpl.
  pose proof (digits2_pos_bounds p) as [Hl Hh].
  set (d' := Zpos (digits2_pos p)) in *.
  assert (0 < d') by (subst d'; lia).
  destruct (Z.lt_trichotomy d' d) as [Hlt|[Heq|Hgt]]; [|done|].
  - assert (2 ^ d' ≤ 2 ^ (d - 1)) by (apply Z.pow_le_mono_r; lia). lia.
  - assert (2 ^ d ≤ 2 ^ (d' - 1)) by (apply Z.pow_le_mono_r; lia). lia.
Qed.

Lemma Zdigits2_pos_bounds z :
  0 < z → 0 < Zdigits2 z ∧ 2 ^ (Zdigits2 z - 1) ≤ z < 2 ^ Zdigits2 z.
Proof.
  destruct z as [|p|p]; try lia. intros _. simpl. split; [lia|].
  apply digits2_pos_bounds.
Qed.

Lemma iter_xO m d : Zpos (Pos.iter xO m d) = Zpos m * 2 ^ Zpos d.
Proof.
  induction d as [|d IH] using Pos.peano_ind.
  - simpl. lia.
  - rewrite Pos.iter_succ, Pos2Z.inj_xO, IH, Pos2Z.inj_succ, Z.pow_succ_r by lia. lia.
Qed.

Lemma shr_1_pos m r s :
  0 < m → shr_1 {| shr_m := m; shr_r := r; shr_s := s |} =
          {| shr_m := m / 2; shr_r := Z.odd m; shr_s := r || s |}.
Proof.
  intros Hm. destruct m as [|p|p]; try lia.
  destruct p as [p|p|]; simpl shr_1.
  - f_equal. rewrite Pos2Z.inj_xI. 
    replace (2 * Zpos p + 1) with (1 + Zpos p * 2) by lia.
    rewrite Z.div_add by lia. reflexivity.
  - f_equal. rewrite Pos2Z.inj_xO. rewrite Z.mul_comm, Z.div_mul by lia. done.
  - reflexivity.
Qed.

Lemma loc_of_shr_record_of_loc m l :
  loc_of_shr_record (shr_record_of_loc m l) = l.
Proof. destruct l as [|[]]; reflexivity. Qed.

Lemma shr_m_of_loc m l : shr_m (shr_record_of_loc m l) = m.
Proof. destruct l as [|[]]; reflexivity. Qed.

Lemma shr_fexp_53 m e l :
  2 ^ 52 ≤ m < 2 ^ 53 → -1074 ≤ e →
  shr_fexp 53 1024 m e l = (shr_record_of_loc m l, e).
Proof.
  intros Hm He. unfold shr_fexp.
  rewrite (Zdigits2_unique m 53) by lia.
  assert (fexp 53 1024 (53 + e) - e = 0) as -> by (unfold fexp, emin; lia).
  reflexivity.
Qed.

Lemma shr_fexp_54 m e l :
  2 ^ 53 ≤ m < 2 ^ 54 → -1075 ≤ e →
  shr_fexp 53 1024 m e l = (shr_1 (shr_record_of_loc m l), e + 1).
Proof.
  intros Hm He. unfold shr_fexp.
  rewrite (Zdigits2_unique m 54) by lia.
  assert (fexp 53 1024 (54 + e) - e = 1) as -> by (unfold fexp, emin; lia).
  reflexivity.
Qed.

Lemma new_location_rel m2 r : 0 ≤ r < m2 → loc_rel r m2 (new_location m2 r).
Proof.
  intros Hr. unfold new_location, new_location_even, new_location_odd.
  destruct (Z.even m2) eqn:Hev.
  - destruct (Z.eqb_spec r 0) as [->|Hne]; [done|].
    destruct (Z.compare_spec (2 * r) m2); simpl; lia.
  - destruct (Z.eqb_spec r 0) as [->|Hne]; [done|].
    assert (Z.odd m2 = true) as Hodd by (by rewrite <-Z.negb_even, Hev).
    apply Z.odd_spec in Hodd as [k ->].
    destruct (Z.compare_spec (2 * r + 1) (2 * k + 1)); simpl; lia.
Qed.

(** The finished mantissa and exponent after a possible carry. *)
Lemma finish_round s mr e :
  2 ^ 52 ≤ mr ≤ 2 ^ 53 → -1074 ≤ e ≤ 960 →
  ∃ mf t,
    (let '(mrs, e') := shr_fexp 53 1024 mr e loc_Exact in
     match shr_m mrs with
     | Z0 => S754_zero s
     | Zpos m => if Z.leb e' (1024 - 53) then S754_finite s m e' else S754_infinity s
     | _ => S754_nan
     end) = S754_finite s mf (e + t) ∧
    0 ≤ t ≤ 1 ∧ 2 ^ 52 ≤ Zpos mf < 2 ^ 53 ∧ Zpos mf * 2 ^ t = mr.
Proof.
  intros Hmr He.
  destruct (decide (mr < 2 ^ 53)) as [Hlt|Hge].
  - rewrite shr_fexp_53 by lia. simpl shr_m.
    destruct mr as [|m|m]; try lia.
    exists m, 0. rewrite Z.add_0_r.
    destruct (Z.leb_spec e (1024 - 53)); [|lia].
    split; [done|]. split; [lia|]. split; [lia|]. lia.
  - assert (mr = 2 ^ 53) as -> by lia.
    rewrite shr_fexp_54 by lia. 
    change (shr_record_of_loc (2 ^ 53) loc_Exact)
      with {| shr_m := 2 ^ 53; shr_r := false; shr_s := false |}.
    rewrite shr_1_pos by lia. simpl shr_m.
    change (2 ^ 53 / 2) with (Zpos (Z.to_pos (2 ^ 52))).
    exists (Z.to_pos (2 ^ 52)), 1.
    destruct (Z.leb_spec (e + 1) (1024 - 53)); [|lia].
    split; [done|]. split; [lia|]. split; [lia|]. lia.
Qed.

Lemma round_nearest_even_rel q r m2 l :
  0 ≤ r < m2 → loc_rel r m2 l →
  let mr := round_nearest_even q l in
  q ≤ mr ≤ q + 1 ∧
  Z.abs (mr * m2 - (q * m2 + r)) * 2 ≤ m2 ∧
  (Z.abs (mr * m2 - (q * m2 + r)) * 2 = m2 → Z.even mr = true).
Proof.
  intros Hr Hl. destruct l as [|[]]; simpl in Hl; simpl round_nearest_even.
  - subst r. split; [lia|]. split; [lia|]. intros Heq. lia.
  - destruct (Z.even q) eqn:Hq.
    + split; [lia|]. split; [lia|]. done.
    + split; [lia|]. split; [lia|]. intros _.
      rewrite Z.even_add, Hq. reflexivity.
  - split; [lia|]. split; [lia|]. intros Heq. lia.
  - split; [lia|]. split; [lia|]. intros Heq. lia.
Qed.

Lemma shr_1_rel q r m2 l :
  0 < q → 0 ≤ r < m2 → loc_rel r m2 l →
  let mrs := shr_1 (shr_record_of_loc q l) in
  shr_m mrs = q / 2 ∧
  0 ≤ (q mod 2) * m2 + r < 2 * m2 ∧
  loc_rel ((q mod 2) * m2 + r) (2 * m2) (loc_of_shr_record mrs).
Proof.
  intros Hq Hr Hl.
  pose proof (Z.mod_pos_bound q 2 ltac:(lia)) as Hmod.
  assert (Z.odd q = true → q mod 2 = 1) as Hodd.
  { intros H. rewrite Zmod_odd, H. done. }
  assert (Z.odd q = false → q mod 2 = 0) as Heven.
  { intros H. rewrite Zmod_odd, H. done. }
  destruct l as [|[]]; simpl in Hl; simpl shr_record_of_loc;
    rewrite shr_1_pos by done; simpl shr_m; simpl loc_of_shr_record;
    (split; [done|]); (split; [nia|]);
    destruct (Z.odd q) eqn:Ho; simpl;
    try rewrite (Hodd eq_refl); try rewrite (Heven eq_refl); lia.
Qed.

(** The correctly rounded quotient: [binary_round_aux] on the integer
    quotient [q] of [q * m2 + r] by [m2]. *)
Lemma binary_round_aux_div s q r m2 e :
  2 ^ 52 ≤ q < 2 ^ 54 → 0 ≤ r < m2 → -1074 ≤ e ≤ 950 →
  ∃ mf t,
    binary_round_aux 53 1024 s q e (new_location m2 r) = S754_finite s mf (e + t) ∧
    0 ≤ t ≤ 2 ∧ 2 ^ 52 ≤ Zpos mf < 2 ^ 53 ∧
    Z.abs (Zpos mf * 2 ^ t * m2 - (q * m2 + r)) * 2 ≤ 2 ^ t * m2 ∧
    (Z.abs (Zpos mf * 2 ^ t * m2 - (q * m2 + r)) * 2 = 2 ^ t * m2 →
     Z.even (Zpos mf) = true).
Proof.
  intros Hq Hr He.
  pose proof (new_location_rel m2 r Hr) as Hl.
  set (l := new_location m2 r) in *. clearbody l.
  unfold binary_round_aux.
  destruct (decide (q < 2 ^ 53)) as [Hlt|Hge].
  - rewrite shr_fexp_53 by lia.
    rewrite shr_m_of_loc, loc_of_shr_record_of_loc.
    destruct (round_nearest_even_rel q r m2 l Hr Hl) as (Hmr & Hb & Ht).
    set (mr := round_nearest_even q l) in *. clearbody mr.
    destruct (finish_round s mr e) as (mf & t & -> & Ht01 & Hmf & Hmul); [lia..|].
    exists mf, t. split; [done|]. split; [lia|]. split; [done|].
    assert (t = 0 ∨ t = 1) as [-> | ->] by lia.
    + change (2 ^ 0) with 1 in *. rewrite !Z.mul_1_r in *. subst mr.
      split; [lia|]. intros Heq. apply Ht. lia.
    + change (2 ^ 1) with 2 in *. rewrite Hmul.
      split; [lia|]. intros _.
      assert (Zpos mf = 2 ^ 52) as -> by lia. reflexivity.
  - rewrite shr_fexp_54 by lia.
    destruct (shr_1_rel q r m2 l) as (Hm & HR & Hl'); [lia|done|done|].
    set (mrs := shr_1 (shr_record_of_loc q l)) in *. clearbody mrs.
    rewrite Hm.
    set (R := q mod 2 * m2 + r) in *.
    destruct (round_nearest_even_rel (q / 2) R (2 * m2) _ HR Hl') as (Hmr & Hb & Ht).
    set (mr := round_nearest_even (q / 2) (loc_of_shr_record mrs)) in *. clearbody mr.
    pose proof (Z.div_mod q 2 ltac:(lia)) as Hdm.
    pose proof (Z.mod_pos_bound q 2 ltac:(lia)) as Hmod.
    assert (q / 2 * (2 * m2) + R = q * m2 + r) as HX by (subst R; nia).
    rewrite HX in Hb, Ht.
    destruct (finish_round s mr (e + 1)) as (mf & t & -> & Ht01 & Hmf & Hmul); [lia..|].
    exists mf, (1 + t). split; [f_equal; lia|]. split; [lia|]. split; [done|].
    assert (t = 0 ∨ t = 1) as [-> | ->] by lia.
    + change (2 ^ (1 + 0)) with 2. change (2 ^ 0) with 1 in *.
      rewrite Z.mul_1_r in Hmul. subst mr.
      split; [lia|]. intros Heq. apply Ht. lia.
    + change (2 ^ (1 + 1)) with 4. change (2 ^ 1) with 2 in *.
      split; [lia|]. intros _.
      assert (Zpos mf = 2 ^ 52) as -> by lia. reflexivity.
Qed.

Lemma binary_round_aux_exact s q e :
  2 ^ 52 ≤ q < 2 ^ 53 → -1074 ≤ e ≤ 960 →
  binary_round_aux 53 1024 s q e loc_Exact = S754_finite s (Z.to_pos q) e.
Proof.
  intros Hq He. unfold binary_round_aux.
  rewrite shr_fexp_53 by lia. simpl shr_record_of_loc. simpl shr_m.
  simpl loc_of_shr_record. simpl round_nearest_even.
  rewrite shr_fexp_53 by lia. simpl shr_m.
  destruct q as [|p|p]; try lia.
  destruct (Z.leb_spec e (1024 - 53)); [|lia]. reflexivity.
Qed.

(** An integer below [2^53] is a binary64 number: its normalised mantissa
    and exponent. *)
Lemma f64_of_Z_pos a :
  0 < a < 2 ^ 53 →
  ∃ m, f64_of_Z a = S754_finite false m (Zdigits2 a - 53) ∧
       Zpos m = a * 2 ^ (53 - Zdigits2 a) ∧ 2 ^ 52 ≤ Zpos m < 2 ^ 53.
Proof.
  intros Ha. destruct (Zdigits2_pos_bounds a ltac:(lia)) as [Hd [Hlo Hhi]].
  assert (Zdigits2 a ≤ 53) as Hd53.
  { destruct (decide (Zdigits2 a ≤ 53)); [done|].
    assert (2 ^ 53 ≤ 2 ^ (Zdigits2 a - 1)) by (apply Z.pow_le_mono_r; lia). lia. }
  destruct a as [|p|p]; try lia.
  simpl Zdigits2 in *. set (d := Zpos (digits2_pos p)) in *.
  assert (2 ^ 52 ≤ Zpos p * 2 ^ (53 - d) < 2 ^ 53) as Hrange.
  { assert (2 ^ 52 = 2 ^ (d - 1) * 2 ^ (53 - d)) as ->.
    { rewrite <-Z.pow_add_r by lia. f_equal. lia. }
    assert (2 ^ 53 = 2 ^ d * 2 ^ (53 - d)) as ->.
    { rewrite <-Z.pow_add_r by lia. f_equal. lia. }
    pose proof (Z.pow_pos_nonneg 2 (53 - d) ltac:(lia) ltac:(lia)). nia. }
  unfold f64_of_Z, binary_normalize, binary_round, shl_align.
  fold d. assert (fexp 53 1024 (d + 0) = d - 53) as ->
    by (unfold fexp, emin; lia).
  rewrite Z.sub_0_r.
  destruct (d - 53) as [|k|k] eqn:Hk; try lia.
  - assert (d = 53) as Hd' by lia. rewrite Hd' in Hrange.
    change (2 ^ (53 - 53)) with 1 in Hrange. rewrite Z.mul_1_r in Hrange.
    rewrite binary_round_aux_exact by lia.
    exists p. split; [done|]. rewrite Hd'. change (2 ^ (53 - 53)) with 1. lia.
  - assert (53 - d = Zpos k) as Hk' by lia. rewrite Hk' in *.
    rewrite iter_xO, binary_round_aux_exact by lia.
    exists (Z.to_pos (Zpos p * 2 ^ Zpos k)). split; [done|].
    rewrite Z2Pos.id by lia. done.
Qed.

Lemma SFdiv_core_53 m1 e1 m2 e2 :
  2 ^ 52 ≤ m1 < 2 ^ 53 → 2 ^ 52 ≤ m2 < 2 ^ 53 → -52 ≤ e1 ≤ 0 → -52 ≤ e2 ≤ 0 →
  SFdiv_core_binary 53 1024 m1 e1 m2 e2 =
    (m1 * 2 ^ 53 / m2, e1 - e2 - 53, new_location m2 ((m1 * 2 ^ 53) mod m2)).
Proof.
  intros H1 H2 He1 He2. unfold SFdiv_core_binary.
  rewrite (Zdigits2_unique m1 53), (Zdigits2_unique m2 53) by lia.
  assert (Z.min (fexp 53 1024 (53 + e1 - (53 + e2))) (e1 - e2) = e1 - e2 - 53) as ->
    by (unfold fexp, emin; lia).
  assert (e1 - e2 - (e1 - e2 - 53) = 53) as -> by lia.
  cbv beta iota zeta. rewrite Z.shiftl_mul_pow2 by lia.
  unfold Z.div, Z.modulo.
  by destruct (Z.div_eucl (m1 * 2 ^ 53) m2).
Qed.

(** The integer next to a binary64 quotient is the integer next to the
    exact quotient. *)
Lemma nearest_transfer a b mf P r :
  0 < a < 2 ^ 52 → 0 < b → 2 ^ 52 ≤ mf →
  0 < P → (P = 1 ∨ ∃ k, P = 2 * k) →
  Z.abs (mf * b - a * P) * 2 ≤ b →
  nearest_ties_even mf P r → nearest_ties_even a b r.
Proof.
  intros Ha Hb Hmf HP Hpar Hd [Hr Hre].
  assert (b < P) as HbP by nia.
  destruct Hpar as [->|[k ->]]; [lia|].
  set (δ := mf * b - a * (2 * k)) in *.
  set (ρ := 2 * k * r - mf).
  assert (2 * (2 * k) * r - 2 * mf = 2 * ρ) as Hρ by (subst ρ; lia).
  rewrite Hρ in Hr, Hre.
  assert (2 * k * (2 * b * r - 2 * a) = 2 * b * ρ + 2 * δ) as Hkey
    by (subst ρ δ; lia).
  assert (Z.abs (2 * b * r - 2 * a) ≤ b) as Hgoal by nia.
  split; [done|]. intros Heq. apply Hre.
  destruct (decide (Z.abs (2 * ρ) = 2 * k)) as [|Hne]; [done|exfalso].
  assert (Z.abs ρ ≤ k - 1) by lia.
  nia.
Qed.

Lemma Zdigits2_le z k : 0 < z < 2 ^ k → 0 ≤ k → Zdigits2 z ≤ k.
Proof.
  intros Hz Hk. destruct (Zdigits2_pos_bounds z ltac:(lia)) as [Hd [Hlo _]].
  destruct (decide (Zdigits2 z ≤ k)); [done|].
  assert (2 ^ k ≤ 2 ^ (Zdigits2 z - 1)) by (apply Z.pow_le_mono_r; lia). lia.
Qed.

Theorem f64_round_div_exact a b :
  0 ≤ a < 2 ^ 52 → 0 < b < 2 ^ 53 →
  f64_round_div a b = Some (np_round_div a b).
Proof.
  intros Ha Hb. unfold f64_round_div.
  destruct (f64_of_Z_pos b Hb) as (m2 & -> & Hm2 & Hr2).
  destruct (decide (a = 0)) as [->|Hne].
  { simpl. f_equal. unfold np_round_div.
    rewrite Z.div_0_l, Z.mod_0_l by lia.
    destruct (Z.compare_spec (2 * 0) b); lia. }
  destruct (f64_of_Z_pos a ltac:(lia)) as (m1 & -> & Hm1 & Hr1).
  destruct (Zdigits2_pos_bounds a ltac:(lia)) as [Hd1 _].
  destruct (Zdigits2_pos_bounds b ltac:(lia)) as [Hd2 _].
  pose proof (Zdigits2_le a 52 ltac:(lia) ltac:(lia)) as Hd1'.
  pose proof (Zdigits2_le b 53 ltac:(lia) ltac:(lia)) as Hd2'.
  set (d1 := Zdigits2 a) in *. set (d2 := Zdigits2 b) in *.
  unfold SFdiv. rewrite SFdiv_core_53 by lia. simpl xorb.
  set (q := Zpos m1 * 2 ^ 53 / Zpos m2).
  set (r := (Zpos m1 * 2 ^ 53) mod Zpos m2).
  pose proof (Z.div_mod (Zpos m1 * 2 ^ 53) (Zpos m2) ltac:(lia)) as Hdm.
  pose proof (Z.mod_pos_bound (Zpos m1 * 2 ^ 53) (Zpos m2) ltac:(lia)) as Hmod.
  fold q r in Hdm, Hmod.
  assert (2 ^ 52 ≤ q < 2 ^ 54) as Hq.
  { split.
    - apply Z.div_le_lower_bound; lia.
    - apply Z.div_lt_upper_bound; lia. }
  destruct (binary_round_aux_div false q r (Zpos m2) (d1 - 53 - (d2 - 53) - 53))
    as (mf & t & -> & Ht & Hmf & Hbound & _); [done|done|lia|].
  unfold f64_rint. f_equal.
  set (ef := d1 - 53 - (d2 - 53) - 53 + t) in *.
  assert (ef ≤ 0) as Hef by (subst ef; lia).
  set (P := 2 ^ (- ef)).
  assert (0 < P) as HP by (apply Z.pow_pos_nonneg; lia).
  apply (nearest_ties_even_unique a b); [lia| |by apply np_round_div_nearest; lia].
  apply (nearest_transfer a b (Zpos mf) P); [lia|lia|lia|done|..].
  - destruct (decide (ef = 0)) as [H0|H0].
    + left. subst P. rewrite H0. reflexivity.
    + right. exists (2 ^ (- ef - 1)). subst P.
      rewrite <-Z.pow_succ_r by lia. f_equal. lia.
  - set (S := 2 ^ t * 2 ^ (53 - d2)).
    assert (0 < S) as HS.
    { apply Z.mul_pos_pos; apply Z.pow_pos_nonneg; lia. }
    assert (Zpos mf * 2 ^ t * Zpos m2 - (q * Zpos m2 + r) =
            S * (Zpos mf * b - a * P)) as Hkey.
    { replace (q * Zpos m2 + r) with (Zpos m1 * 2 ^ 53) by lia.
      rewrite Hm1, Hm2.
      assert (2 ^ (53 - d1) * 2 ^ 53 = S * P) as Hpow.
      { subst S P. rewrite <-!Z.pow_add_r by lia. f_equal. subst ef. lia. }
      subst S. nia. }
    rewrite Hkey, Z.abs_mul, (Z.abs_eq S) in Hbound by lia.
    replace (2 ^ t * Zpos m2) with (S * b) in Hbound by (subst S; rewrite Hm2; lia).
    nia.
  - destruct ef as [|p|p] eqn:Hefp; try lia.
    + subst P. simpl. rewrite Z.mul_1_r. split; [lia|]. intros H. lia.
    + subst P. simpl Z.opp. apply np_round_div_nearest.
      apply Z.pow_pos_nonneg; lia.
Qed.

(** ** Sums *)

Lemma sumZ_app l k : sumZ (l ++ k) = sumZ l + sumZ k.
Proof. induction l as [|x l IH]; csimpl; lia. Qed.

Lemma sumZ_fmap_add {A} (f g : A → Z) (l : list A) :
  sumZ ((λ x, f x + g x) <$> l) = sumZ (f <$> l) + sumZ (g <$> l).
Proof. induction l as [|x l IH]; csimpl; lia. Qed.

Lemma sumZ_fmap_ext {A} (f g : A → Z) (l : list A) :
  (∀ x, x ∈ l → f x = g x) → sumZ (f <$> l) = sumZ (g <$> l).
Proof.
  induction l as [|x l IH]; intros Hfg; csimpl; [done|].
  rewrite (Hfg x) by left. rewrite IH; [done|].
  intros y Hy. apply Hfg. by right.
Qed.

Lemma sumZ_fmap_zero {A} (l : list A) : sumZ ((λ _, 0) <$> l) = 0.
Proof. induction l; csimpl; lia. Qed.

(** Exactly one key of a duplicate-free list equals a key it contains. *)
Lemma sumZ_indicator (k0 : Scalar) (ks : list Scalar) :
  NoDup ks → k0 ∈ ks →
  sumZ ((λ k, if decide (k0 = k) then 1 else 0) <$> ks) = 1.
Proof.
  induction 1 as [|k ks Hk Hnd IH]; intros Hin.
  - by apply elem_of_nil in Hin.
  - csimpl. destruct (decide (k0 = k)) as [->|Hne].
    + rewrite (sumZ_fmap_ext _ (λ _, 0)); [rewrite sumZ_fmap_zero; lia|].
      intros x Hx. destruct (decide (k = x)) as [->|]; [done|done].
    + apply elem_of_cons in Hin as [?|Hin]; [done|]. rewrite IH; [lia|done].
Qed.

(** ** The order of the keys *)

Lemma string_leb_trans a b c :
  String.leb a b = true → String.leb b c = true → String.leb a c = true.
Proof.
  unfold String.leb.
  destruct (String.compare a b) eqn:Eab; intros Hab; [| |done].
  - apply String.compare_eq_iff in Eab as ->. done.
  - destruct (String.compare b c) eqn:Ebc; intros Hbc; [| |done].
    + apply String.compare_eq_iff in Ebc as <-. by rewrite Eab.
    + apply String_as_OT.cmp_lt in Eab, Ebc.
      pose proof (String_as_OT.lt_trans _ _ _ Eab Ebc) as Hac.
      apply String_as_OT.cmp_lt in Hac. unfold String_as_OT.cmp in Hac.
      by rewrite Hac.
Qed.

Global Instance key_le_total : Total key_le.
Proof.
  intros [x|s] [y|t]; simpl; [|by left|by right|apply String.leb_total].
  destruct (Qlt_le_dec x y) as [Hlt|Hle]; [left|by right].
  by apply Qlt_le_weak.
Qed.

Global Instance key_le_trans : Transitive key_le.
Proof.
  intros [x|s] [y|t] [z|u]; simpl; try done;
    [apply Qle_trans|apply string_leb_trans].
Qed.

Lemma key_le_refl k : key_le k k.
Proof. by destruct (key_le_total k k). Qed.

(** ** Groups *)

Section Groups.
Variable c : Column.

Lemma group_keys_sorted df : StronglySorted key_le (group_keys c df).
Proof. apply StronglySorted_merge_sort; apply _. Qed.

Lemma group_keys_NoDup df : NoDup (group_keys c df).
Proof.
  unfold group_keys. rewrite merge_sort_Permutation. apply NoDup_remove_dups.
Qed.

Lemma elem_of_group_keys df k :
  k ∈ group_keys c df ↔ ∃ r, r ∈ df ∧ key_of c r = Some k.
Proof.
  unfold group_keys. rewrite merge_sort_Permutation, elem_of_remove_dups.
  apply list_elem_of_omap.
Qed.

(** A frame has a group as soon as one cell of the column holds a value. *)
Lemma group_keys_nonempty df r k :
  r ∈ df → key_of c r = Some k → group_keys c df ≠ [].
Proof.
  intros Hr Hk Hnil.
  assert (k ∈ group_keys c df) as Hin by (apply elem_of_group_keys; by exists r).
  rewrite Hnil in Hin. by apply elem_of_nil in Hin.
Qed.

Lemma select_eq_cons k r df :
  select_eq c k (r :: df) =
    if decide (key_of c r = Some k) then r :: select_eq c k df else select_eq c k df.
Proof. reflexivity. Qed.

Lemma notna_cons r df :
  notna c (r :: df) =
    if decide (is_Some (key_of c r)) then r :: notna c df else notna c df.
Proof. reflexivity. Qed.

Lemma group_size_nonneg df k : 0 ≤ group_size c df k.
Proof. unfold group_size. lia. Qed.

Lemma group_size_pos df k : k ∈ group_keys c df → 1 ≤ group_size c df k.
Proof.
  intros (r & Hr & Hk)%elem_of_group_keys. unfold group_size.
  assert (r ∈ select_eq c k df) as Hin.
  { unfold select_eq. apply list_elem_of_filter. done. }
  destruct (select_eq c k df); [by apply elem_of_nil in Hin|simpl; lia].
Qed.

(** The group sizes over any duplicate-free list of keys that covers the
    frame add up to the number of rows with a value in the column. *)
Lemma sum_group_size_cover df ks :
  NoDup ks → (∀ r k, r ∈ df → key_of c r = Some k → k ∈ ks) →
  sumZ (group_size c df <$> ks) = Z.of_nat (length (notna c df)).
Proof.
  intros Hnd. induction df as [|r df IH]; intros Hcov.
  - unfold group_size. simpl. apply sumZ_fmap_zero.
  - assert (sumZ (group_size c df <$> ks) = Z.of_nat (length (notna c df))) as IH'.
    { apply IH. intros r' k Hr'. apply Hcov. by right. }
    rewrite notna_cons. destruct (key_of c r) as [k0|] eqn:Hk0.
    + rewrite (sumZ_fmap_ext _
        (λ k, (if decide (k0 = k) then 1 else 0) + group_size c df k)).
      * rewrite sumZ_fmap_add, sumZ_indicator, IH'.
        -- destruct (decide (is_Some (Some k0))) as [_|Hno]; [simpl length; lia|].
           by destruct Hno.
        -- done.
        -- apply (Hcov r); [left|done].
      * intros k _. unfold group_size. rewrite select_eq_cons, Hk0.
        destruct (decide (Some k0 = Some k)) as [[= ->]|Hne].
        -- destruct (decide (k = k)); [simpl length; lia|done].
        -- destruct (decide (k0 = k)) as [->|]; [done|lia].
    + rewrite (sumZ_fmap_ext _ (group_size c df)).
      * destruct (decide (is_Some (@None Scalar))) as [[? ?]|_]; done.
      * intros k _. unfold group_size. rewrite select_eq_cons, Hk0.
        by destruct (decide (None = Some k)).
Qed.

Lemma sum_group_size df :
  sumZ (group_size c df <$> group_keys c df) = Z.of_nat (length (notna c df)).
Proof.
  apply sum_group_size_cover; [apply group_keys_NoDup|].
  intros r k Hr Hk. apply elem_of_group_keys. by exists r.
Qed.

Lemma groupby_size_snd df :
  snd <$> groupby_size c df = group_size c df <$> group_keys c df.
Proof. unfold groupby_size. rewrite <-list_fmap_compose. reflexivity. Qed.

Lemma groupby_size_fst df : fst <$> groupby_size c df = group_keys c df.
Proof.
  unfold groupby_size. rewrite <-list_fmap_compose. apply list_fmap_id.
Qed.

(** [strata['Nh'].sum()] counts the rows with a value in the column. *)
Lemma Nh_sum_notna df : Nh_sum c df = Z.of_nat (length (notna c df)).
Proof. unfold Nh_sum. rewrite groupby_size_snd. apply sum_group_size. Qed.

Lemma Nh_sum_le_length df : Nh_sum c df ≤ Z.of_nat (length df).
Proof.
  rewrite Nh_sum_notna. unfold notna.
  pose proof (length_filter (λ r, is_Some (key_of c r)) df). lia.
Qed.

Lemma Nh_sum_pos df : 1 ≤ Nh_sum c df → group_keys c df ≠ [].
Proof.
  intros HN Hnil. unfold Nh_sum in HN.
  rewrite groupby_size_snd, Hnil in HN. simpl in HN. lia.
Qed.

Lemma assign_nh_groupby n df :
  assign_nh n (groupby_size c df) = stratum_of c n df <$> group_keys c df.
Proof.
  unfold assign_nh. rewrite groupby_size_snd, sum_group_size.
  unfold groupby_size. rewrite <-list_fmap_compose. reflexivity.
Qed.

Lemma assign_nh_keys n df :
  key <$> assign_nh n (groupby_size c df) = group_keys c df.
Proof.
  rewrite assign_nh_groupby, <-list_fmap_compose. apply list_fmap_id.
Qed.

End Groups.

(** ** The size of a group *)

Lemma group_size_le c (df : DataFrame) k : group_size c df k ≤ Z.of_nat (length df).
Proof.
  unfold group_size, select_eq.
  pose proof (length_filter (λ r, key_of c r = Some k) df). lia.
Qed.

(** A group lies within the rows that have a value. *)
Lemma group_size_le_notna c (df : DataFrame) k :
  group_size c df k ≤ Z.of_nat (length (notna c df)).
Proof.
  unfold group_size. induction df as [|r df IH]; [done|].
  rewrite select_eq_cons, notna_cons.
  destruct (decide (key_of c r = Some k)) as [Hk|_].
  - destruct (decide (is_Some (key_of c r))) as [_|Hno]; [simpl length; lia|].
    destruct Hno. by rewrite Hk.
  - destruct (decide (is_Some (key_of c r))); simpl length; lia.
Qed.

(** ** The residual correction *)

Lemma iloc_last_add_snoc diff init last :
  iloc_last_add diff (init ++ [last]) = Ok (init ++ [add_nh diff last]).
Proof.
  induction init as [|s init IH]; [reflexivity|].
  change ((s :: init) ++ [last]) with (s :: (init ++ [last])).
  destruct (init ++ [last]) as [|s' rest] eqn:Heq.
  { by destruct init. }
  simpl in *. rewrite IH. reflexivity.
Qed.

Lemma snoc_of_nonempty {A} (l : list A) : l ≠ [] → ∃ init last, l = init ++ [last].
Proof.
  destruct l as [|x l] using rev_ind; [done|]. intros _. by exists l, x.
Qed.

Lemma allocate_snoc c n df init last :
  assign_nh n (groupby_size c df) = init ++ [last] →
  allocate c n df =
    Ok (init ++ [add_nh (n - sumZ (nh <$> (init ++ [last]))) last]).
Proof.
  intros Heq. unfold allocate. rewrite Heq.
  destruct (decide (n - sumZ (nh <$> init ++ [last]) ≠ 0)) as [Hd|Hd].
  - apply iloc_last_add_snoc.
  - assert (n - sumZ (nh <$> init ++ [last]) = 0) as -> by lia.
    destruct last as [k a b]. unfold add_nh; simpl.
    by rewrite Z.add_0_r.
Qed.

(** A frame without a group has an empty table, which the correction
    cannot index. *)
Lemma allocate_no_strata c n df :
  group_keys c df = [] →
  allocate c n df = if decide (n = 0) then Ok [] else Raise IndexerOutOfBounds.
Proof.
  intros Hnil. unfold allocate. rewrite assign_nh_groupby, Hnil. simpl.
  destruct (decide (n = 0)) as [->|Hn]; case_decide; try done; lia.
Qed.

(** ** Reading the sheet *)

Lemma load_data_labels sheet : label <$> load_data sheet = seq 0 (length sheet).
Proof.
  unfold load_data. rewrite fmap_imap.
  rewrite (imap_ext _ (λ i _, i)) by done.
  rewrite (imap_seq_0 sheet (λ i, i)). apply list_fmap_id.
Qed.

Lemma load_data_NoDup sheet : NoDup (label <$> load_data sheet).
Proof. rewrite load_data_labels. apply NoDup_seq. Qed.

Lemma load_data_length sheet : length (load_data sheet) = length sheet.
Proof. apply length_imap. Qed.

Lemma load_data_nonempty sheet : sheet ≠ [] → load_data sheet ≠ [].
Proof.
  intros Hne Hnil. apply Hne. apply length_zero_iff_nil.
  by rewrite <-load_data_length, Hnil.
Qed.

(** ** Drawing rows *)

(** Rows of a frame with pairwise distinct labels are told apart by label. *)
Lemma label_inj_on (obj : DataFrame) r1 r2 :
  NoDup (label <$> obj) → r1 ∈ obj → r2 ∈ obj → label r1 = label r2 → r1 = r2.
Proof.
  intros Hnd (i & Hi)%list_elem_of_lookup (j & Hj)%list_elem_of_lookup Heq.
  assert (i = j) as ->.
  { eapply (NoDup_lookup _ i j (label r1) Hnd).
    - by rewrite list_lookup_fmap, Hi.
    - by rewrite list_lookup_fmap, Hj, Heq. }
  congruence.
Qed.

Lemma take_rows_Ok obj idx :
  Forall (λ i, (i < length obj)%nat) idx →
  ∃ rows, take_rows obj idx = Ok rows ∧ rows_at obj idx rows.
Proof.
  intros Hidx.
  assert (is_Some (mapM (λ i, obj !! i) idx)) as [rows Hrows].
  { apply mapM_is_Some. eapply Forall_impl; [done|].
    intros i Hi. simpl. by apply lookup_lt_is_Some. }
  exists rows. unfold take_rows. rewrite Hrows. split; [done|].
  by apply mapM_Some.
Qed.

Lemma rows_at_elem_of obj idx rows r :
  rows_at obj idx rows → r ∈ rows → ∃ i, i ∈ idx ∧ obj !! i = Some r.
Proof.
  induction 1 as [|i r' idx rows Hir _ IH]; intros Hin.
  - by apply elem_of_nil in Hin.
  - apply elem_of_cons in Hin as [->|Hin].
    + exists i. split; [left|done].
    + destruct (IH Hin) as (j & Hj & Hjr). exists j. split; [by right|done].
Qed.

Lemma rows_at_subseteq obj idx rows r :
  rows_at obj idx rows → r ∈ rows → r ∈ obj.
Proof.
  intros Hat Hin. destruct (rows_at_elem_of _ _ _ _ Hat Hin) as (i & _ & Hi).
  by eapply list_elem_of_lookup_2.
Qed.

Lemma rows_at_NoDup obj idx rows :
  rows_at obj idx rows → NoDup idx → NoDup (label <$> obj) →
  NoDup (label <$> rows).
Proof.
  induction 1 as [|i r idx rows Hir Hat IH]; intros Hidx Hobj; csimpl.
  { constructor. }
  apply NoDup_cons in Hidx as [Hi Hidx].
  apply NoDup_cons. split; [|by apply IH].
  intros (r' & Hlab & Hr')%list_elem_of_fmap.
  destruct (rows_at_elem_of _ _ _ _ Hat Hr') as (j & Hj & Hjr).
  assert (i = j) as ->; [|done].
  eapply (NoDup_lookup _ i j (label r) Hobj).
  - by rewrite list_lookup_fmap, Hir.
  - by rewrite list_lookup_fmap, Hjr, Hlab.
Qed.

Section Sampling.
Context {R : NumpyRandom}.

(** A seeded draw neither reads nor writes the ambient state. *)
Lemma sample_seeded obj n s w :
  sample obj n (Some s) w = (seeded_sample obj n s, w).
Proof.
  unfold sample, seeded_sample. destruct (decide (n < 0)); [done|].
  by destruct (choice _ _ _).
Qed.

Lemma choice_Ok g N n :
  (n ≤ N)%nat →
  ∃ idx, (choice g N n).1 = Ok idx ∧ length idx = n ∧ NoDup idx ∧
         Forall (λ i, (i < N)%nat) idx.
Proof.
  intros Hn. unfold choice.
  destruct (decide (N = 0%nat ∧ n ≠ 0%nat)) as [[? ?]|_]; [lia|].
  destruct (decide (N < n)%nat); [lia|].
  pose proof (permutation_Permutation g N) as Hperm.
  destruct (permutation g N) as [p g']. simpl in *.
  exists (take n p). split; [done|].
  split; [|split].
  - rewrite length_take_le; [done|]. by rewrite Hperm, length_seq.
  - eapply sublist_NoDup; [|apply (sublist_take p n)].
    rewrite Hperm. apply NoDup_seq.
  - apply Forall_forall. intros i Hi%subseteq_take.
    rewrite Hperm in Hi. apply elem_of_seq in Hi. lia.
Qed.

Lemma choice_larger g N n :
  N ≠ 0%nat → (N < n)%nat → (choice g N n).1 = Raise LargerSample.
Proof.
  intros HN Hn. unfold choice.
  destruct (decide (N = 0%nat ∧ n ≠ 0%nat)) as [[? ?]|_]; [lia|].
  destruct (decide (N < n)%nat); [done|lia].
Qed.

(** Within the size of the frame a seeded draw returns [n] rows of the
    frame, at pairwise distinct positions. *)
Lemma seeded_sample_Ok obj n s :
  0 ≤ n ≤ Z.of_nat (length obj) →
  ∃ idx rows, seeded_sample obj n s = Ok rows ∧ rows_at obj idx rows ∧
              NoDup idx ∧ Z.of_nat (length rows) = n.
Proof.
  intros Hn. unfold seeded_sample. destruct (decide (n < 0)); [lia|].
  destruct (choice_Ok (seed_state s) (length obj) (Z.to_nat n))
    as (idx & -> & Hlen & Hnd & Hlt); [lia|].
  destruct (take_rows_Ok obj idx Hlt) as (rows & Hrows & Hat).
  exists idx, rows. split; [done|]. split; [done|]. split; [done|].
  rewrite <-(Forall2_length _ _ _ Hat), Hlen. lia.
Qed.

Lemma seeded_sample_negative obj n s :
  n < 0 → seeded_sample obj n s = Raise NegativeRows.
Proof. intros Hn. unfold seeded_sample. by destruct (decide (n < 0)). Qed.

Lemma seeded_sample_larger obj n s :
  obj ≠ [] → Z.of_nat (length obj) < n →
  seeded_sample obj n s = Raise LargerSample.
Proof.
  intros Hobj Hn. unfold seeded_sample. destruct (decide (n < 0)); [lia|].
  rewrite choice_larger; [done| |lia].
  destruct obj; [done|simpl; lia].
Qed.

End Sampling.

(** ** Sequences of fallible steps *)

Lemma mapM_res_Ok {A B} (g : A → res B) l ks :
  Forall2 (λ x y, g x = Ok y) l ks → mapM g l = Ok ks.
Proof.
  induction 1 as [|x y l ks Hxy _ IH]; [done|].
  simpl. rewrite Hxy. simpl. rewrite IH. done.
Qed.

Lemma mapM_res_app {A B} (g : A → res B) l k :
  mapM g (l ++ k) = xs ← mapM g l; ys ← mapM g k; mret (xs ++ ys).
Proof.
  induction l as [|x l IH]; simpl.
  - by destruct (mapM g k).
  - destruct (g x) as [y|e]; simpl; [|done].
    rewrite IH. destruct (mapM g l) as [xs|e]; simpl; [|done].
    by destruct (mapM g k).
Qed.

(** The first failing step decides the exception. *)
Lemma mapM_res_Raise {A B} (g : A → res B) l e :
  Forall (λ x, (∃ y, g x = Ok y) ∨ g x = Raise e) l →
  Exists (λ x, g x = Raise e) l →
  mapM g l = Raise e.
Proof.
  induction 1 as [|x l Hx _ IH]; intros Hex; [by inv Hex|].
  simpl. destruct Hx as [[y Hy]|Hx].
  - rewrite Hy. simpl. inv Hex; [congruence|].
    rewrite IH by done. done.
  - rewrite Hx. done.
Qed.

Section Branches.
Context {R : NumpyRandom}.

Lemma bind_run {A B} (m : M A) (f : A → M B) w :
  (m ≫= f) w =
    match m w with
    | (Ok a, w') => f a w'
    | (Raise e, w') => (Raise e, w')
    end.
Proof. reflexivity. Qed.

(** A loop whose steps leave the ambient state alone leaves it alone. *)
Lemma mapM_frame {A B} (f : A → M B) (g : world → A → res B) l w :
  (∀ x w', f x w' = (g w' x, w')) → mapM f l w = (mapM (g w) l, w).
Proof.
  intros Hf. induction l as [|x l IH]; [done|].
  simpl. rewrite bind_run, Hf.
  destruct (g w x) as [y|e]; simpl; [|done].
  rewrite bind_run, IH.
  by destruct (mapM (g w) l).
Qed.

Lemma srswor_run n w : srswor n w = (seeded_sample (df w) n 42, w).
Proof. unfold srswor. rewrite bind_run. apply sample_seeded. Qed.

Lemma draw_run c strata w :
  draw c strata w = (mapM (draw_rows c (df w)) strata, w).
Proof.
  unfold draw. apply (mapM_frame _ (λ w', draw_rows c (df w'))).
  intros row w'. rewrite bind_run. apply sample_seeded.
Qed.

Lemma stratified_run n d w :
  stratified n d w = (stratified_of n (STRAT_VAR_MAP d) (df w), w).
Proof.
  unfold stratified, stratified_of.
  rewrite bind_run. unfold get_df. rewrite bind_run. unfold lift.
  destruct (allocate _ n (df w)) as [strata|e]; simpl; [|done].
  rewrite bind_run, draw_run.
  destruct (mapM _ strata) as [samples|e]; simpl; [|done].
  rewrite bind_run.
  by destruct (pd_concat samples).
Qed.

End Branches.

(** ** The allocation table *)

Section Allocation.
Variable c : Column.

Lemma elem_of_strata n df s :
  s ∈ stratum_of c n df <$> group_keys c df →
  key s ∈ group_keys c df ∧ Nh s = group_size c df (key s) ∧
  nh s = np_round_div (n * Nh s) (Z.of_nat (length (notna c df))).
Proof. intros (k & -> & Hk)%list_elem_of_fmap. done. Qed.

Lemma group_keys_notna_pos df k :
  k ∈ group_keys c df → (0 < length (notna c df))%nat.
Proof.
  intros Hk. pose proof (group_size_pos c df k Hk).
  pose proof (group_size_le_notna c df k). lia.
Qed.

Lemma strata_nh_nonneg n df s :
  0 ≤ n → s ∈ stratum_of c n df <$> group_keys c df → 0 ≤ nh s.
Proof.
  intros Hn (Hk & HNh & ->)%elem_of_strata.
  pose proof (group_keys_notna_pos _ _ Hk).
  pose proof (group_size_nonneg c df (key s)).
  apply np_round_div_nonneg; [rewrite HNh|]; lia.
Qed.

Lemma strata_nh_le_Nh n df s :
  n ≤ Z.of_nat (length (notna c df)) → s ∈ stratum_of c n df <$> group_keys c df →
  nh s ≤ Nh s.
Proof.
  intros Hn (Hk & HNh & ->)%elem_of_strata.
  pose proof (group_keys_notna_pos _ _ Hk).
  pose proof (group_size_nonneg c df (key s)).
  apply np_round_div_le; [lia|]. rewrite HNh. nia.
Qed.

Lemma allocate_shape n df :
  group_keys c df ≠ [] →
  ∃ init last,
    assign_nh n (groupby_size c df) = init ++ [last] ∧
    allocate c n df =
      Ok (init ++ [add_nh (n - sumZ (nh <$> init ++ [last])) last]).
Proof.
  intros Hdf.
  destruct (snoc_of_nonempty (assign_nh n (groupby_size c df)))
    as (init & last & Heq).
  { rewrite assign_nh_groupby. by intros Hnil%fmap_nil_inv. }
  exists init, last. split; [done|]. by apply allocate_snoc.
Qed.

(** Whatever the correction, the key and [Nh] columns are those of
    [groupby]. *)
Lemma allocate_keys n df strata :
  allocate c n df = Ok strata → key <$> strata = group_keys c df.
Proof.
  destruct (decide (group_keys c df = [])) as [Hnil|Hne].
  - rewrite (allocate_no_strata c n df Hnil), Hnil.
    case_decide; [|done]. by intros [= <-].
  - destruct (allocate_shape n df Hne) as (init & last & Heq & ->).
    intros [= <-]. rewrite <-(assign_nh_keys c n df), Heq.
    by rewrite !fmap_app.
Qed.

Lemma allocate_Nh n df strata s :
  allocate c n df = Ok strata → s ∈ strata →
  key s ∈ group_keys c df ∧ Nh s = group_size c df (key s).
Proof.
  destruct (decide (group_keys c df = [])) as [Hnil|Hne].
  - rewrite (allocate_no_strata c n df Hnil).
    case_decide; [|done]. intros [= <-] Hs. by apply elem_of_nil in Hs.
  - destruct (allocate_shape n df Hne) as (init & last & Heq & ->).
    rewrite assign_nh_groupby in Heq.
    intros [= <-] [Hs|Hs%list_elem_of_singleton]%elem_of_app.
    + assert (s ∈ init ++ [last]) as Hs' by (apply elem_of_app; by left).
      rewrite <-Heq in Hs'. by apply elem_of_strata in Hs' as (? & ? & _).
    + assert (last ∈ init ++ [last]) as Hs'.
      { apply elem_of_app. right. by apply list_elem_of_singleton. }
      rewrite <-Heq in Hs'. subst s.
      by apply elem_of_strata in Hs' as (? & ? & _).
Qed.

(** A table that is returned has the requested total. *)
Lemma allocate_sum n df strata :
  allocate c n df = Ok strata → sumZ (nh <$> strata) = n.
Proof.
  destruct (decide (group_keys c df = [])) as [Hnil|Hne].
  - rewrite (allocate_no_strata c n df Hnil).
    case_decide; [|done]. by intros [= <-].
  - destruct (allocate_shape n df Hne) as (init & last & _ & ->).
    intros [= <-]. rewrite !fmap_app, !sumZ_app. simpl. lia.
Qed.

(** The [Nh] column of the table before the correction. *)
Lemma sum_Nh_strata n df :
  sumZ (Nh <$> (stratum_of c n df <$> group_keys c df)) =
    Z.of_nat (length (notna c df)).
Proof.
  rewrite <-list_fmap_compose.
  change (Nh ∘ stratum_of c n df) with (group_size c df).
  apply sum_group_size.
Qed.

End Allocation.

(** ** Properties of the allocation *)

(** C1.  When the stratification column holds a value in at least one row
    ([N = strata['Nh'].sum() >= 1]) the allocation table exists and its [nh]
    column, after the residual is added to the last row, sums to [n]; this
    holds for every integer [n], in particular for [1 <= n <= N]. *)
Theorem allocation_sums_to_n
    (sheet : list (Block XlsxCell)) (d : StratDisplay) (n : Z) :
  1 ≤ Nh_sum (STRAT_VAR_MAP d) (load_data sheet) →
  ∃ strata,
    allocate (STRAT_VAR_MAP d) n (load_data sheet) = Ok strata ∧
    sumZ (nh <$> strata) = n.
Proof.
  intros HN%Nh_sum_pos.
  destruct (allocate_shape (STRAT_VAR_MAP d) n (load_data sheet) HN)
    as (init & last & _ & Halloc).
  eexists. split; [exact Halloc|].
  rewrite !fmap_app, !sumZ_app. simpl. lia.
Qed.

(** C2 as amended.  Before the correction every [nh] is the integer nearest
    to [n * Nh / N], [N] being the sum of the [Nh] column, and the even one
    of the two nearest when the share lies exactly halfway. *)
Theorem shares_round_half_to_even
    (sheet : list (Block XlsxCell)) (d : StratDisplay) (n : Z) :
  let strata := assign_nh n (groupby_size (STRAT_VAR_MAP d) (load_data sheet)) in
  Forall (λ s, nearest_ties_even (n * Nh s) (sumZ (Nh <$> strata)) (nh s)) strata.
Proof.
  intros strata. subst strata. rewrite assign_nh_groupby, sum_Nh_strata.
  apply Forall_forall. intros s Hs.
  pose proof Hs as (Hk & _ & ->)%elem_of_strata.
  apply group_keys_notna_pos in Hk.
  apply np_round_div_nearest. lia.
Qed.

(** C3 as amended.  For [1 <= n <= N], [N] being the sum of the [Nh]
    column, every row of the allocation table except the last has
    [0 <= nh <= Nh]. *)
Theorem all_but_last_within_stratum
    (sheet : list (Block XlsxCell)) (d : StratDisplay) (n : Z) :
  1 ≤ n ≤ Nh_sum (STRAT_VAR_MAP d) (load_data sheet) →
  ∃ init last,
    allocate (STRAT_VAR_MAP d) n (load_data sheet) = Ok (init ++ [last]) ∧
    feasible init.
Proof.
  intros Hn. set (c := STRAT_VAR_MAP d) in *.
  destruct (allocate_shape c n (load_data sheet))
    as (init & last & Heq & Halloc); [apply Nh_sum_pos; lia|].
  eexists init, _. split; [exact Halloc|].
  apply Forall_forall. intros s Hs.
  assert (s ∈ stratum_of c n (load_data sheet) <$> group_keys c (load_data sheet)) as Hs'.
  { rewrite <-assign_nh_groupby, Heq. apply elem_of_app. by left. }
  split.
  - eapply strata_nh_nonneg; [|exact Hs']. lia.
  - eapply strata_nh_le_Nh; [|exact Hs']. rewrite <-Nh_sum_notna. lia.
Qed.

(** C5.  When the table has a row, it is the rounded table with the whole
    residual added to the [nh] of its last row, the row of the greatest key
    in the order of [groupby], and nothing else changed; for strata A: 333,
    B: 333, C: 334 and [n = 100] it is 33, 33, 34. *)
Theorem residual_on_last_stratum
    (sheet : list (Block XlsxCell)) (d : StratDisplay) (n : Z) :
  1 ≤ Nh_sum (STRAT_VAR_MAP d) (load_data sheet) →
  (∃ init last,
     let rounded := assign_nh n (groupby_size (STRAT_VAR_MAP d) (load_data sheet)) in
     let diff := n - sumZ (nh <$> rounded) in
     rounded = init ++ [last] ∧
     Forall (λ s, key_le (key s) (key last) ∧ key s ≠ key last) init ∧
     allocate (STRAT_VAR_MAP d) n (load_data sheet) =
       Ok (init ++ [{| key := key last; Nh := Nh last; nh := nh last + diff |}])) ∧
  allocate (STRAT_VAR_MAP DisplayRegion) 100 (load_data sheet_333) =
    Ok [ {| key := Str "A"; Nh := 333; nh := 33 |};
         {| key := Str "B"; Nh := 333; nh := 33 |};
         {| key := Str "C"; Nh := 334; nh := 34 |} ].
Proof.
  intros HN%Nh_sum_pos. split; [|by vm_compute].
  destruct (allocate_shape (STRAT_VAR_MAP d) n (load_data sheet) HN)
    as (init & last & Heq & Halloc).
  exists init, last. simpl. rewrite Heq. split; [done|]. split; [|exact Halloc].
  pose proof (assign_nh_keys (STRAT_VAR_MAP d) n (load_data sheet)) as Hkeys.
  rewrite Heq, fmap_app in Hkeys. simpl in Hkeys.
  pose proof (group_keys_sorted (STRAT_VAR_MAP d) (load_data sheet)) as Hsorted.
  pose proof (group_keys_NoDup (STRAT_VAR_MAP d) (load_data sheet)) as Hnd.
  rewrite <-Hkeys in Hsorted, Hnd.
  apply NoDup_app in Hnd as (_ & Hdisj & _).
  apply Forall_forall. intros s Hs.
  assert (key s ∈ key <$> init) as Hin by (apply list_elem_of_fmap; by exists s).
  split.
  - eapply StronglySorted_app_1_elem_of; [exact Hsorted|exact Hin|left].
  - intros Heqk. apply (Hdisj _ Hin). rewrite Heqk. left.
Qed.

(** C9.  With [n = N], the sum of the [Nh] column, the rounded shares are
    the stratum sizes, the residual is zero and the table is returned as
    rounded: one row per value of the column, with [nh = Nh] the number of
    rows that hold the value. *)
Theorem census_allocation (sheet : list (Block XlsxCell)) (d : StratDisplay) :
  let df := load_data sheet in
  let groups := groupby_size (STRAT_VAR_MAP d) df in
  let n := Nh_sum (STRAT_VAR_MAP d) df in
  let strata := assign_nh n groups in
  n - sumZ (nh <$> strata) = 0 ∧
  allocate (STRAT_VAR_MAP d) n df = Ok strata ∧
  Forall (λ s, nh s = Nh s) strata ∧
  strata = (λ g, {| key := g.1; Nh := g.2; nh := g.2 |}) <$> groups ∧
  (∀ r k, r ∈ df → key_of (STRAT_VAR_MAP d) r = Some k →
          ∃ s, s ∈ strata ∧ key s = k ∧
               nh s = Z.of_nat (length (select_eq (STRAT_VAR_MAP d) k df))).
Proof.
  intros df groups n strata. set (c := STRAT_VAR_MAP d) in *.
  assert (n = Z.of_nat (length (notna c df))) as Hn by apply Nh_sum_notna.
  assert (strata = stratum_of c n df <$> group_keys c df) as Hstrata
    by apply assign_nh_groupby.
  assert (∀ s, s ∈ strata → nh s = Nh s) as Hall.
  { intros s Hs. rewrite Hstrata in Hs.
    pose proof Hs as (Hk & _ & ->)%elem_of_strata.
    apply group_keys_notna_pos in Hk.
    rewrite <-Hn, Z.mul_comm. apply np_round_div_exact. lia. }
  assert (n - sumZ (nh <$> strata) = 0) as Hdiff.
  { rewrite (sumZ_fmap_ext nh Nh) by done.
    rewrite Hstrata, sum_Nh_strata. lia. }
  split; [done|]. split; [|split; [by apply Forall_forall|split]].
  - unfold allocate. fold groups strata. rewrite Hdiff. by case_decide.
  - rewrite Hstrata. unfold groups, groupby_size. rewrite <-list_fmap_compose.
    apply list_fmap_ext. intros i k Hk. apply list_elem_of_lookup_2 in Hk.
    assert (stratum_of c n df k ∈ strata) as Hs.
    { rewrite Hstrata. apply list_elem_of_fmap. by exists k. }
    specialize (Hall _ Hs). unfold stratum_of in *. simpl in *. by rewrite Hall.
  - intros r k Hr Hk.
    assert (stratum_of c n df k ∈ strata) as Hs.
    { rewrite Hstrata. apply list_elem_of_fmap. exists k. split; [done|].
      apply elem_of_group_keys. by exists r. }
    exists (stratum_of c n df k). split; [done|]. split; [done|].
    by rewrite (Hall _ Hs).
Qed.

(** ** Properties of the draws *)

Lemma drawn_length c d strata samples :
  Forall2 (drawn c d) strata samples →
  Z.of_nat (length (concat samples)) = sumZ (nh <$> strata).
Proof.
  induction 1 as [|s smp strata samples (Hlen & _ & _) _ IH]; [done|].
  csimpl. rewrite length_app. lia.
Qed.

Lemma drawn_elem_of c d strata samples r :
  Forall2 (drawn c d) strata samples → r ∈ concat samples →
  r ∈ d ∧ ∃ k, cell c (block r) = Some k ∧ k ∈ key <$> strata.
Proof.
  induction 1 as [|s smp strata samples (_ & Hin & _) _ IH]; simpl.
  - intros Hr. by apply elem_of_nil in Hr.
  - intros [Hr|Hr]%elem_of_app.
    + destruct (Hin r Hr) as [? Hk]. split; [done|].
      exists (key s). split; [done|]. csimpl. left.
    + destruct (IH Hr) as [? (k & Hk & Hin')]. split; [done|].
      exists k. split; [done|]. csimpl. by right.
Qed.

(** Draws from distinct strata of a frame with distinct labels do not
    overlap. *)
Lemma drawn_NoDup c d strata samples :
  NoDup (label <$> d) → NoDup (key <$> strata) →
  Forall2 (drawn c d) strata samples →
  NoDup (label <$> concat samples).
Proof.
  intros Hd Hkeys Hall. induction Hall as [|s smp strata samples Hs Hall IH].
  { constructor. }
  csimpl in Hkeys. apply NoDup_cons in Hkeys as [Hk Hkeys].
  simpl. rewrite fmap_app. apply NoDup_app.
  destruct Hs as (_ & Hin & Hnd).
  split; [done|]. split; [|by apply IH].
  intros x (r & -> & Hr)%list_elem_of_fmap (r' & Hlab & Hr')%list_elem_of_fmap.
  destruct (Hin r Hr) as [Hrd Hrk].
  destruct (drawn_elem_of _ _ _ _ _ Hall Hr') as [Hrd' (k & Hrk' & Hk')].
  assert (r = r') as <- by (by apply (label_inj_on d)).
  apply Hk. rewrite Hrk in Hrk'. by injection Hrk' as ->.
Qed.

Lemma select_eq_all c k (d : DataFrame) :
  (∀ r, r ∈ d → key_of c r = Some k) → select_eq c k d = d.
Proof.
  induction d as [|r d IH]; intros Hall; [done|].
  rewrite select_eq_cons.
  destruct (decide (key_of c r = Some k)) as [_|Hne].
  - f_equal. apply IH. intros r' Hr'. apply Hall. by right.
  - destruct Hne. apply Hall. left.
Qed.

Lemma notna_all c (d : DataFrame) :
  (∀ r, r ∈ d → is_Some (key_of c r)) → notna c d = d.
Proof.
  induction d as [|r d IH]; intros Hall; [done|].
  rewrite notna_cons.
  destruct (decide (is_Some (key_of c r))) as [_|Hne].
  - f_equal. apply IH. intros r' Hr'. apply Hall. by right.
  - destruct Hne. apply Hall. left.
Qed.

(** A column with a single value has a single group. *)
Lemma group_keys_single c k (d : DataFrame) :
  d ≠ [] → (∀ r, r ∈ d → key_of c r = Some k) → group_keys c d = [k].
Proof.
  intros Hd Hall.
  pose proof (group_keys_NoDup c d) as Hnd.
  assert (group_keys c d ≠ []) as Hne.
  { destruct d as [|r d]; [done|].
    apply (group_keys_nonempty c _ r k); [left|apply Hall; left]. }
  assert (∀ x, x ∈ group_keys c d → x = k) as Hk.
  { intros x (r & Hr & Hx)%elem_of_group_keys.
    rewrite (Hall r Hr) in Hx. by injection Hx. }
  destruct (group_keys c d) as [|x [|y l]]; [done| |].
  - f_equal. apply Hk. left.
  - apply NoDup_cons in Hnd as [Hx _]. destruct Hx.
    rewrite (Hk x) by left. rewrite <-(Hk y) by (right; left). left.
Qed.

Section Draws.
Context {R : NumpyRandom}.
Variable c : Column.

(** A draw within the size of its stratum succeeds. *)
Lemma draw_rows_Ok (d : DataFrame) s :
  NoDup (label <$> d) → Nh s = group_size c d (key s) → 0 ≤ nh s ≤ Nh s →
  ∃ smp, draw_rows c d s = Ok smp ∧ drawn c d s smp.
Proof.
  intros Hd HNh Hnh. unfold draw_rows.
  destruct (seeded_sample_Ok (select_eq c (key s) d) (nh s) 42)
    as (idx & rows & Hrows & Hat & Hidx & Hlen).
  { rewrite HNh in Hnh. exact Hnh. }
  exists rows. split; [done|]. split; [done|]. split.
  - intros r Hr. eapply rows_at_subseteq in Hr; [|done].
    unfold select_eq in Hr. by apply list_elem_of_filter in Hr as [? ?].
  - eapply rows_at_NoDup; [done..|].
    eapply sublist_NoDup; [exact Hd|].
    apply fmap_sublist, sublist_filter.
Qed.

(** A draw beyond the size of its stratum raises the sampler's error. *)
Lemma draw_rows_larger (d : DataFrame) s :
  key s ∈ group_keys c d → Nh s = group_size c d (key s) → Nh s < nh s →
  draw_rows c d s = Raise LargerSample.
Proof.
  intros Hk HNh Hnh. unfold draw_rows.
  pose proof (group_size_pos c d _ Hk) as Hpos. unfold group_size in *.
  apply seeded_sample_larger; [|lia].
  intros Hnil. rewrite Hnil in Hpos. simpl in Hpos. lia.
Qed.

Lemma draw_rows_all_Ok (d : DataFrame) strata :
  NoDup (label <$> d) →
  Forall (λ s, Nh s = group_size c d (key s)) strata → feasible strata →
  ∃ samples, Forall2 (λ s smp, draw_rows c d s = Ok smp) strata samples ∧
             Forall2 (drawn c d) strata samples.
Proof.
  intros Hd. induction strata as [|s strata IH]; intros HNh Hfeas.
  { exists []. split; constructor. }
  apply Forall_cons in HNh as [HNh1 HNh]. apply Forall_cons in Hfeas as [Hf1 Hfeas].
  destruct (IH HNh Hfeas) as (samples & Hok & Hdrawn).
  destruct (draw_rows_Ok d s Hd HNh1 Hf1) as (smp & Hsmp & Hgood).
  exists (smp :: samples). split; by constructor.
Qed.

End Draws.

(** ** Properties of the two branches *)

Section Runs.
Context {R : NumpyRandom}.

(** C6.  When every row of a non-empty allocation table has
    [0 <= nh <= Nh], the stratified branch returns; the combined sample is
    the concatenation of one draw per stratum in table order, has [sum(nh)]
    rows with pairwise distinct index labels (hence no repeated row), and
    the rows drawn for a stratum carry its key in the stratification
    column. *)
Theorem stratified_sample_of_feasible
    (sheet : list (Block XlsxCell)) (d : StratDisplay) (n : Z) (g : RandomState)
    (strata : list Stratum) :
  strata ≠ [] →
  allocate (STRAT_VAR_MAP d) n (load_data sheet) = Ok strata →
  feasible strata →
  ∃ samples,
    let w := init_world R sheet g in
    draw (STRAT_VAR_MAP d) strata w = (Ok samples, w) ∧
    stratified n d w = (Ok (strata, concat samples), w) ∧
    Z.of_nat (length (concat samples)) = sumZ (nh <$> strata) ∧
    NoDup (label <$> concat samples) ∧
    NoDup (concat samples) ∧
    Forall2 (λ s smp, ∀ r, r ∈ smp →
                           cell (STRAT_VAR_MAP d) (block r) = Some (key s))
            strata samples.
Proof.
  intros Hne Halloc Hfeas. set (c := STRAT_VAR_MAP d) in *.
  set (df0 := load_data sheet) in *.
  destruct (draw_rows_all_Ok c df0 strata) as (samples & Hok & Hdrawn).
  { apply load_data_NoDup. }
  { apply Forall_forall. intros s Hs.
    by destruct (allocate_Nh c n df0 strata s Halloc Hs). }
  { done. }
  assert (NoDup (label <$> concat samples)) as Hnd.
  { eapply drawn_NoDup; [apply load_data_NoDup| |exact Hdrawn].
    rewrite (allocate_keys c n df0 strata Halloc). apply group_keys_NoDup. }
  assert (samples ≠ []) as Hsamples.
  { intros ->. by apply Forall2_nil_inv_r in Hok. }
  exists samples. simpl.
  assert (mapM (draw_rows c df0) strata = Ok samples) as HmapM
    by by apply mapM_res_Ok.
  split; [|split; [|split; [|split; [|split]]]].
  - rewrite draw_run. simpl. fold df0. by rewrite HmapM.
  - rewrite stratified_run. simpl. fold df0 c. unfold stratified_of.
    rewrite Halloc. simpl. rewrite HmapM. simpl.
    by destruct samples.
  - by eapply drawn_length.
  - done.
  - by eapply NoDup_fmap_1.
  - eapply Forall2_impl; [exact Hdrawn|].
    intros s smp (_ & Hin & _) r Hr. by destruct (Hin r Hr).
Qed.

(** C7.  For [1 <= n <= N] the SRSWOR branch returns [n] rows with
    pairwise distinct index labels, all of them rows of the frame, and
    leaves the ambient state, in particular [df], as it was. *)
Theorem srswor_sample (sheet : list (Block XlsxCell)) (n : Z) (g : RandomState) :
  1 ≤ n ≤ Z.of_nat (length sheet) →
  ∃ smp,
    let w := init_world R sheet g in
    srswor n w = (Ok smp, w) ∧
    df (srswor n w).2 = load_data sheet ∧
    Z.of_nat (length smp) = n ∧
    NoDup (label <$> smp) ∧
    NoDup smp ∧
    (∀ r, r ∈ smp → r ∈ load_data sheet).
Proof.
  intros Hn.
  destruct (seeded_sample_Ok (load_data sheet) n 42)
    as (idx & rows & Hrows & Hat & Hidx & Hlen).
  { rewrite load_data_length. lia. }
  assert (NoDup (label <$> rows)) as Hnd.
  { eapply rows_at_NoDup; [done..|]. apply load_data_NoDup. }
  exists rows. simpl. rewrite srswor_run. simpl. rewrite Hrows.
  split; [done|]. split; [done|]. split; [done|]. split; [done|].
  split; [by eapply NoDup_fmap_1|].
  intros r Hr. by eapply rows_at_subseteq.
Qed.

(** C8.  Both branches are functions of the frame, [n] and the
    stratification field: whatever the state of the global generator, and
    also when run again in the state the previous run left, they return
    the same allocation table and the same rows in the same order. *)
Theorem runs_reproducible
    (sheet : list (Block XlsxCell)) (d : StratDisplay) (n : Z)
    (g1 g2 : RandomState) :
  let w1 := init_world R sheet g1 in
  let w2 := init_world R sheet g2 in
  (stratified n d w1).1 = (stratified n d w2).1 ∧
  (srswor n w1).1 = (srswor n w2).1 ∧
  (stratified n d (stratified n d w1).2).1 = (stratified n d w1).1 ∧
  (srswor n (srswor n w1).2).1 = (srswor n w1).1.
Proof.
  simpl. rewrite !stratified_run, !srswor_run. simpl.
  rewrite ?stratified_run, ?srswor_run. done.
Qed.

(** C10.  When the stratification column of a non-empty frame holds one
    and the same value in every row, the sample of the stratified branch is
    the result of the SRSWOR branch for the same [n]: the same rows in the
    same order, or the same exception. *)
Theorem single_stratum_is_srswor
    (sheet : list (Block XlsxCell)) (d : StratDisplay) (k : Scalar) (n : Z)
    (g : RandomState) :
  sheet ≠ [] →
  (∀ r, r ∈ load_data sheet → key_of (STRAT_VAR_MAP d) r = Some k) →
  let w := init_world R sheet g in
  snd <$> (stratified n d w).1 = (srswor n w).1.
Proof.
  intros Hne Hall. simpl. rewrite stratified_run, srswor_run. simpl.
  set (c := STRAT_VAR_MAP d) in *. set (df0 := load_data sheet) in *.
  assert (df0 ≠ []) as Hdf by by apply load_data_nonempty.
  assert (0 < Z.of_nat (length df0)) as Hlen.
  { destruct df0; [done|simpl; lia]. }
  unfold stratified_of, allocate.
  rewrite assign_nh_groupby, (group_keys_single c k df0 Hdf Hall).
  assert (stratum_of c n df0 k =
            {| key := k; Nh := Z.of_nat (length df0); nh := n |}) as Hrow.
  { unfold stratum_of, group_size.
    rewrite (select_eq_all c k df0 Hall), notna_all.
    - by rewrite np_round_div_exact.
    - intros r Hr. by rewrite (Hall r Hr). }
  change (stratum_of c n df0 <$> [k]) with [stratum_of c n df0 k].
  rewrite Hrow. csimpl.
  case_decide; [lia|]. csimpl.
  unfold draw_rows. simpl. rewrite (select_eq_all c k df0 Hall).
  destruct (seeded_sample df0 n 42) as [smp|e]; simpl; [|done].
  by rewrite app_nil_r.
Qed.

(** C4 as amended.  No check stands between the allocation and the draws:
    when the table asks some stratum for more rows than it has, the table
    is used as it is and the branch ends in the sampler's own exception,
    raised by a per-stratum draw. *)
Theorem oversized_stratum_fails_in_draw
    (sheet : list (Block XlsxCell)) (d : StratDisplay) (n : Z) (g : RandomState)
    (strata : list Stratum) :
  1 ≤ n →
  allocate (STRAT_VAR_MAP d) n (load_data sheet) = Ok strata →
  Exists (λ s, Nh s < nh s) strata →
  let w := init_world R sheet g in
  draw (STRAT_VAR_MAP d) strata w = (Raise LargerSample, w) ∧
  stratified n d w = (Raise LargerSample, w).
Proof.
  intros Hn Halloc Hex. set (c := STRAT_VAR_MAP d) in *.
  set (df0 := load_data sheet) in *.
  assert (mapM (draw_rows c df0) strata = Raise LargerSample) as HmapM.
  { assert (group_keys c df0 ≠ []) as Hdf.
    { rewrite <-(allocate_keys c n df0 strata Halloc).
      intros Hnil%fmap_nil_inv. subst strata. by inv Hex. }
    assert (∀ s, s ∈ strata → Nh s < nh s →
                 draw_rows c df0 s = Raise LargerSample) as Hlarger.
    { intros s Hs Hlt.
      destruct (allocate_Nh c n df0 strata s Halloc Hs) as [Hk HNh].
      by apply draw_rows_larger. }
    assert (∀ s, s ∈ strata → 0 ≤ nh s →
                 (∃ smp, draw_rows c df0 s = Ok smp) ∨
                 draw_rows c df0 s = Raise LargerSample) as Hcases.
    { intros s Hs Hnn.
      destruct (allocate_Nh c n df0 strata s Halloc Hs) as [Hk HNh].
      destruct (decide (nh s ≤ Nh s)) as [Hle|Hgt].
      - left. destruct (draw_rows_Ok c df0 s) as (smp & Hsmp & _);
          [apply load_data_NoDup|done|lia|by exists smp].
      - right. apply Hlarger; [done|lia]. }
    destruct (allocate_shape c n df0 Hdf) as (init & last & Heq & Halloc').
    rewrite Halloc' in Halloc. injection Halloc as <-.
    set (last' := add_nh _ last) in *.
    assert (Forall (λ s, (∃ smp, draw_rows c df0 s = Ok smp) ∨
                         draw_rows c df0 s = Raise LargerSample) init) as Hinit.
    { apply Forall_forall. intros s Hs. apply Hcases.
      - apply elem_of_app. by left.
      - apply (strata_nh_nonneg c n df0); [lia|].
        rewrite <-assign_nh_groupby, Heq. apply elem_of_app. by left. }
    destruct (decide (Exists (λ s, Nh s < nh s) init)) as [Hin|Hnin].
    - rewrite mapM_res_app, (mapM_res_Raise _ init LargerSample); [done..|].
      apply Exists_exists in Hin as (s & Hs & Hlt).
      apply Exists_exists. exists s. split; [done|].
      apply Hlarger; [|done]. apply elem_of_app. by left.
    - apply Exists_app in Hex as [Hex|Hex]; [done|].
      apply Exists_cons in Hex as [Hlt|Hex]; [|by inv Hex].
      assert (draw_rows c df0 last' = Raise LargerSample) as Hlast.
      { apply Hlarger; [|done]. apply elem_of_app. right. left. }
      apply mapM_res_Raise.
      + apply Forall_app. split; [done|]. constructor; [by right|constructor].
      + apply Exists_app. right. by left. }
  simpl. rewrite draw_run, stratified_run. simpl. fold df0 c.
  unfold stratified_of. rewrite Halloc. simpl. by rewrite HmapM.
Qed.

End Runs.

(** ** Where the allocation leaves the stated bounds *)

(** C2, as stated, fails.  Two strata of one block each and [n = 1]: both
    shares are 1/2, which [np.round] sends to 0 (in binary64 as on the exact
    quotient), while rounding half away from zero gives 1. *)
Lemma half_share_not_rounded_away :
  1 ≤ 1 ≤ Z.of_nat (length sheet_halves) ∧
  Nh_sum (STRAT_VAR_MAP DisplayRegion) (load_data sheet_halves) =
    Z.of_nat (length sheet_halves) ∧
  f64_round_div (1 * 1) 2 = Some 0 ∧
  round_half_away_div (1 * 1) 2 = 1 ∧
  ¬ Forall (λ s, nh s = round_half_away_div (1 * Nh s) (Z.of_nat (length sheet_halves)))
           (assign_nh 1 (groupby_size (STRAT_VAR_MAP DisplayRegion)
                                      (load_data sheet_halves))).
Proof.
  split; [by vm_compute|]. split; [by vm_compute|]. split; [by vm_compute|].
  split; [by vm_compute|].
  intros Hall. apply Forall_cons in Hall as [Hx _]. vm_compute in Hx. discriminate.
Qed.

(** C3, as stated, fails.  Strata of 3, 3, 3, 3 and 1 blocks with [n = 2]:
    every share rounds to 0 and the residual 2 lands on the last stratum,
    which has one block.  Strata of 3, 3, 3 and 1 blocks with [n = 5]: the
    shares round to 2, 2, 2, 0 and the residual -1 makes the last [nh]
    negative.  No cell is missing in either sheet, so [N] is the number of
    rows. *)
Lemma last_stratum_out_of_range :
  (sheet_small ≠ [] ∧ 1 ≤ 2 ≤ Z.of_nat (length sheet_small) ∧
   Nh_sum (STRAT_VAR_MAP DisplayRegion) (load_data sheet_small) =
     Z.of_nat (length sheet_small) ∧
   allocate (STRAT_VAR_MAP DisplayRegion) 2 (load_data sheet_small) =
     Ok [ {| key := Str "a"; Nh := 3; nh := 0 |}; {| key := Str "b"; Nh := 3; nh := 0 |};
          {| key := Str "c"; Nh := 3; nh := 0 |}; {| key := Str "d"; Nh := 3; nh := 0 |};
          {| key := Str "e"; Nh := 1; nh := 2 |} ] ∧
   ¬ feasible
     [ {| key := Str "a"; Nh := 3; nh := 0 |}; {| key := Str "b"; Nh := 3; nh := 0 |};
       {| key := Str "c"; Nh := 3; nh := 0 |}; {| key := Str "d"; Nh := 3; nh := 0 |};
       {| key := Str "e"; Nh := 1; nh := 2 |} ]) ∧
  (sheet_negative ≠ [] ∧ 1 ≤ 5 ≤ Z.of_nat (length sheet_negative) ∧
   Nh_sum (STRAT_VAR_MAP DisplayRegion) (load_data sheet_negative) =
     Z.of_nat (length sheet_negative) ∧
   allocate (STRAT_VAR_MAP DisplayRegion) 5 (load_data sheet_negative) =
     Ok [ {| key := Str "a"; Nh := 3; nh := 2 |}; {| key := Str "b"; Nh := 3; nh := 2 |};
          {| key := Str "c"; Nh := 3; nh := 2 |}; {| key := Str "d"; Nh := 1; nh := -1 |} ] ∧
   ¬ feasible
     [ {| key := Str "a"; Nh := 3; nh := 2 |}; {| key := Str "b"; Nh := 3; nh := 2 |};
       {| key := Str "c"; Nh := 3; nh := 2 |}; {| key := Str "d"; Nh := 1; nh := -1 |} ]).
Proof.
  split; (split; [done|]); (split; [by vm_compute|]); (split; [by vm_compute|]);
    (split; [by vm_compute|]); apply (bool_decide_unpack _); by vm_compute.
Qed.

(** C4, as stated, fails.  For the frame above and [n = 2] the allocation
    step returns its table, last row [nh = 2] over [Nh = 1], without any
    exception; the exception that ends the run is the sampler's
    [LargerSample], raised by the draw for that row. *)
Lemma oversized_stratum_reaches_sampler :
  let w := init_world RotRandom sheet_small 0%nat in
  let strata :=
    [ {| key := Str "a"; Nh := 3; nh := 0 |}; {| key := Str "b"; Nh := 3; nh := 0 |};
      {| key := Str "c"; Nh := 3; nh := 0 |}; {| key := Str "d"; Nh := 3; nh := 0 |};
      {| key := Str "e"; Nh := 1; nh := 2 |} ] in
  allocate (STRAT_VAR_MAP DisplayRegion) 2 (load_data sheet_small) = Ok strata ∧
  Exists (λ s, Nh s < nh s) strata ∧
  draw_rows (R:=RotRandom) (STRAT_VAR_MAP DisplayRegion) (load_data sheet_small)
            {| key := Str "e"; Nh := 1; nh := 2 |} = Raise LargerSample ∧
  draw (STRAT_VAR_MAP DisplayRegion) strata w = (Raise LargerSample, w) ∧
  stratified 2 DisplayRegion w = (Raise LargerSample, w).
Proof.
  simpl. split; [by vm_compute|]. split.
  { apply (bool_decide_unpack _). by vm_compute. }
  split; [by vm_compute|]. split; by vm_compute.
Qed.

(** ** The theorems at concrete frames *)

(** C1 at the frame of 334 C, 333 A and 333 B blocks with [n = 100]. *)
Lemma allocation_sums_to_n_witness :
  1 ≤ Nh_sum (STRAT_VAR_MAP DisplayRegion) (load_data sheet_333) ∧
  ∃ strata,
    allocate (STRAT_VAR_MAP DisplayRegion) 100 (load_data sheet_333) = Ok strata ∧
    sumZ (nh <$> strata) = 100.
Proof.
  assert (1 ≤ Nh_sum (STRAT_VAR_MAP DisplayRegion) (load_data sheet_333)) as H1
    by (by vm_compute).
  split; [exact H1|].
  exact (allocation_sums_to_n sheet_333 DisplayRegion 100 H1).
Defined.

(** C3 as amended, at two cells marked "NA" and strata of 3 and 1 blocks
    with [n = 4], the number of rows that have a region. *)
Lemma all_but_last_within_stratum_witness :
  1 ≤ 4 ≤ Nh_sum (STRAT_VAR_MAP DisplayRegion) (load_data sheet_missing) ∧
  ∃ init last,
    allocate (STRAT_VAR_MAP DisplayRegion) 4 (load_data sheet_missing) =
      Ok (init ++ [last]) ∧
    feasible init.
Proof.
  assert (1 ≤ 4 ≤ Nh_sum (STRAT_VAR_MAP DisplayRegion) (load_data sheet_missing))
    as H1 by (by vm_compute).
  split; [exact H1|].
  exact (all_but_last_within_stratum sheet_missing DisplayRegion 4 H1).
Defined.

(** C5 at the regions 9 and 10, entered as text, with [n = 1]: the shares
    round to 0 and 0, and the residual 1 goes to region 10, the last row. *)
Lemma residual_on_last_stratum_witness :
  1 ≤ Nh_sum (STRAT_VAR_MAP DisplayRegion) (load_data sheet_codes) ∧
  ((∃ init last,
     let rounded := assign_nh 1 (groupby_size (STRAT_VAR_MAP DisplayRegion)
                                              (load_data sheet_codes)) in
     let diff := 1 - sumZ (nh <$> rounded) in
     rounded = init ++ [last] ∧
     Forall (λ s, key_le (key s) (key last) ∧ key s ≠ key last) init ∧
     allocate (STRAT_VAR_MAP DisplayRegion) 1 (load_data sheet_codes) =
       Ok (init ++ [{| key := key last; Nh := Nh last; nh := nh last + diff |}])) ∧
   allocate (STRAT_VAR_MAP DisplayRegion) 100 (load_data sheet_333) =
     Ok [ {| key := Str "A"; Nh := 333; nh := 33 |};
          {| key := Str "B"; Nh := 333; nh := 33 |};
          {| key := Str "C"; Nh := 334; nh := 34 |} ]) ∧
  allocate (STRAT_VAR_MAP DisplayRegion) 1 (load_data sheet_codes) =
    Ok [ {| key := Num 9; Nh := 1; nh := 0 |}; {| key := Num 10; Nh := 1; nh := 1 |} ].
Proof.
  assert (1 ≤ Nh_sum (STRAT_VAR_MAP DisplayRegion) (load_data sheet_codes)) as H1
    by (by vm_compute).
  split; [exact H1|].
  split; [exact (residual_on_last_stratum sheet_codes DisplayRegion 1 H1)|].
  by vm_compute.
Defined.

(** C6 at strata of 3, 3, 3, 3 and 1 blocks with [n = 4], allocation
    1, 1, 1, 1, 0. *)
Lemma stratified_sample_of_feasible_witness :
  let w := init_world RotRandom sheet_small 7%nat in
  (strata_small ≠ [] ∧
   allocate (STRAT_VAR_MAP DisplayRegion) 4 (load_data sheet_small) = Ok strata_small ∧
   feasible strata_small) ∧
  ∃ samples,
    draw (STRAT_VAR_MAP DisplayRegion) strata_small w = (Ok samples, w) ∧
    stratified 4 DisplayRegion w = (Ok (strata_small, concat samples), w) ∧
    Z.of_nat (length (concat samples)) = sumZ (nh <$> strata_small) ∧
    NoDup (label <$> concat samples) ∧
    NoDup (concat samples) ∧
    Forall2 (λ s smp, ∀ r, r ∈ smp →
                           cell (STRAT_VAR_MAP DisplayRegion) (block r) = Some (key s))
            strata_small samples.
Proof.
  intros w.
  assert (strata_small ≠ []) as H1 by done.
  assert (allocate (STRAT_VAR_MAP DisplayRegion) 4 (load_data sheet_small) =
          Ok strata_small) as H2 by (by vm_compute).
  assert (feasible strata_small) as H3 by (apply (bool_decide_unpack _); by vm_compute).
  split; [exact (conj H1 (conj H2 H3))|].
  exact (stratified_sample_of_feasible (R:=RotRandom) sheet_small DisplayRegion 4
           7%nat strata_small H1 H2 H3).
Defined.

(** C7 at a frame of 13 blocks with [n = 4]. *)
Lemma srswor_sample_witness :
  let w := init_world RotRandom sheet_small 7%nat in
  1 ≤ 4 ≤ Z.of_nat (length sheet_small) ∧
  ∃ smp,
    srswor 4 w = (Ok smp, w) ∧
    df (srswor 4 w).2 = load_data sheet_small ∧
    Z.of_nat (length smp) = 4 ∧
    NoDup (label <$> smp) ∧
    NoDup smp ∧
    (∀ r, r ∈ smp → r ∈ load_data sheet_small).
Proof.
  intros w.
  assert (1 ≤ 4 ≤ Z.of_nat (length sheet_small)) as H1 by (by vm_compute).
  split; [exact H1|].
  exact (srswor_sample (R:=RotRandom) sheet_small 4 7%nat H1).
Defined.

(** C10 at a frame of 5 blocks of one region with [n = 3]. *)
Lemma single_stratum_is_srswor_witness :
  let w := init_world RotRandom sheet_single 7%nat in
  (sheet_single ≠ [] ∧
   ∀ r, r ∈ load_data sheet_single →
        key_of (STRAT_VAR_MAP DisplayRegion) r = Some (Str "Tunis")) ∧
  snd <$> (stratified 3 DisplayRegion w).1 = (srswor 3 w).1.
Proof.
  intros w.
  assert (sheet_single ≠ []) as H1 by done.
  assert (∀ r, r ∈ load_data sheet_single →
               key_of (STRAT_VAR_MAP DisplayRegion) r = Some (Str "Tunis")) as H2.
  { apply Forall_forall. apply (bool_decide_unpack _). by vm_compute. }
  split; [exact (conj H1 H2)|].
  exact (single_stratum_is_srswor (R:=RotRandom) sheet_single DisplayRegion
           (Str "Tunis") 3 7%nat H1 H2).
Defined.

(** C4 as amended, at strata of 3, 3, 3, 3 and 1 blocks with [n = 2]. *)
Lemma oversized_stratum_fails_in_draw_witness :
  let w := init_world RotRandom sheet_small 7%nat in
  let strata :=
    [ {| key := Str "a"; Nh := 3; nh := 0 |}; {| key := Str "b"; Nh := 3; nh := 0 |};
      {| key := Str "c"; Nh := 3; nh := 0 |}; {| key := Str "d"; Nh := 3; nh := 0 |};
      {| key := Str "e"; Nh := 1; nh := 2 |} ] in
  (1 ≤ 2 ∧
   allocate (STRAT_VAR_MAP DisplayRegion) 2 (load_data sheet_small) = Ok strata ∧
   Exists (λ s, Nh s < nh s) strata) ∧
  draw (STRAT_VAR_MAP DisplayRegion) strata w = (Raise LargerSample, w) ∧
  stratified 2 DisplayRegion w = (Raise LargerSample, w).
Proof.
  intros w strata.
  assert (1 ≤ 2) as H1 by lia.
  assert (allocate (STRAT_VAR_MAP DisplayRegion) 2 (load_data sheet_small) = Ok strata)
    as H2 by (by vm_compute).
  assert (Exists (λ s, Nh s < nh s) strata) as H3
    by (apply (bool_decide_unpack _); by vm_compute).
  split; [exact (conj H1 (conj H2 H3))|].
  exact (oversized_stratum_fails_in_draw (R:=RotRandom) sheet_small DisplayRegion 2
           7%nat strata H1 H2 H3).
Defined.

(** ** Further properties of the rounding *)

Lemma np_round_div_mono a a' b :
  0 < b → a ≤ a' → np_round_div a b ≤ np_round_div a' b.
Proof.
  intros Hb Hle.
  destruct (np_round_div_nearest a b Hb) as [H1 E1].
  destruct (np_round_div_nearest a' b Hb) as [H2 E2].
  set (r := np_round_div a b) in *. set (r' := np_round_div a' b) in *.
  destruct (decide (r ≤ r')) as [|Hgt]; [done|exfalso].
  assert (r = r' + 1) as Hr by nia.
  assert (Z.abs (2 * b * r - 2 * a) = b) as Ha by nia.
  assert (Z.abs (2 * b * r' - 2 * a') = b) as Ha' by nia.
  specialize (E1 Ha). specialize (E2 Ha').
  rewrite Hr, Z.even_add, E2 in E1. discriminate.
Qed.

Lemma sumZ_abs_bound {A} (f : A → Z) (B : Z) (l : list A) :
  Forall (λ x, Z.abs (f x) ≤ B) l →
  Z.abs (sumZ (f <$> l)) ≤ Z.of_nat (length l) * B.
Proof.
  induction 1 as [|x l Hx _ IH]; csimpl; [lia|]. lia.
Qed.

Lemma sumZ_fmap_scale {A} (f : A → Z) (k : Z) (l : list A) :
  sumZ ((λ x, k * f x) <$> l) = k * sumZ (f <$> l).
Proof. induction l as [|x l IH]; csimpl; lia. Qed.

Lemma sumZ_fmap_sub {A} (f g : A → Z) (l : list A) :
  sumZ ((λ x, f x - g x) <$> l) = sumZ (f <$> l) - sumZ (g <$> l).
Proof. induction l as [|x l IH]; csimpl; lia. Qed.

Lemma sumZ_fmap_le {A} (f g : A → Z) (l : list A) :
  Forall (λ x, f x ≤ g x) l → sumZ (f <$> l) ≤ sumZ (g <$> l).
Proof. induction 1 as [|x l Hx _ IH]; csimpl; lia. Qed.

Lemma sumZ_fmap_nonneg {A} (f : A → Z) (l : list A) :
  Forall (λ x, 0 ≤ f x) l → 0 ≤ sumZ (f <$> l).
Proof. induction 1 as [|x l Hx _ IH]; csimpl; lia. Qed.

(** The rows of a frame are those with a value in the column and those
    without. *)
Lemma notna_isna_length c (d : DataFrame) :
  (length (notna c d) + length (filter (λ r, key_of c r = None) d))%nat = length d.
Proof.
  induction d as [|r d IH]; [done|].
  rewrite notna_cons, filter_cons.
  destruct (key_of c r) as [k|] eqn:Hk.
  - destruct (decide (is_Some (Some k))) as [_|Hno]; [|by destruct Hno].
    destruct (decide (Some k = None)); [done|]. simpl. lia.
  - destruct (decide (is_Some (@None Scalar))) as [[? ?]|_]; [done|].
    destruct (decide (@None Scalar = None)); [|done]. simpl. lia.
Qed.

(** A frame whose column holds no value has no group. *)
Lemma group_keys_all_missing c (d : DataFrame) :
  (∀ r, r ∈ d → key_of c r = None) → group_keys c d = [].
Proof.
  intros Hall. destruct (group_keys c d) as [|k ks] eqn:Hkeys; [done|].
  assert (k ∈ group_keys c d) as Hk by (rewrite Hkeys; left).
  apply elem_of_group_keys in Hk as (r & Hr & Hrk).
  by rewrite (Hall r Hr) in Hrk.
Qed.

(** The [Nh] column of a returned table is that of [groupby]. *)
Lemma allocate_Nh_sum c n (d : DataFrame) strata :
  allocate c n d = Ok strata → sumZ (Nh <$> strata) = Nh_sum c d.
Proof.
  intros Halloc. unfold Nh_sum.
  rewrite groupby_size_snd, <-(allocate_keys c n d strata Halloc).
  rewrite <-list_fmap_compose. apply sumZ_fmap_ext.
  intros s Hs. by destruct (allocate_Nh c n d strata s Halloc Hs).
Qed.

(** ** Further properties of the allocation *)

(** X1.  The frame that [groupby(...).size()] returns has one row per value
    that occurs in the column, missing values apart, the values in the
    order of [groupby] and without repetition; every [Nh] is at least 1 and
    counts the rows with that value, and the [Nh] together with the rows
    whose cell is missing add up to the number of rows of the sheet. *)
Theorem groupby_partitions_frame (sheet : list (Block XlsxCell)) (c : Column) :
  let df := load_data sheet in
  let groups := groupby_size c df in
  StronglySorted key_le groups.*1 ∧
  NoDup groups.*1 ∧
  (∀ k, k ∈ groups.*1 ↔ ∃ r, r ∈ df ∧ key_of c r = Some k) ∧
  Forall (λ g, 1 ≤ g.2 ∧
               g.2 = Z.of_nat (length (filter (λ r, key_of c r = Some g.1) df)))
         groups ∧
  sumZ groups.*2 + Z.of_nat (length (filter (λ r, key_of c r = None) df)) =
    Z.of_nat (length sheet).
Proof.
  intros df groups.
  assert (groups.*1 = group_keys c df) as Hkeys by apply groupby_size_fst.
  rewrite Hkeys.
  split; [apply group_keys_sorted|]. split; [apply group_keys_NoDup|].
  split; [apply elem_of_group_keys|]. split.
  - apply Forall_forall. intros g Hg. unfold groups, groupby_size in Hg.
    apply list_elem_of_fmap in Hg as (k & -> & Hk). simpl.
    split; [by apply group_size_pos|done].
  - unfold groups. rewrite groupby_size_snd, sum_group_size.
    pose proof (notna_isna_length c df) as Hlen.
    unfold df in Hlen at 3. rewrite load_data_length in Hlen. lia.
Qed.

(** X2.  The residual is small: when the table has a row, twice its
    absolute value is at most the number of strata, each share being
    rounded by at most one half. *)
Theorem residual_bounded_by_strata
    (sheet : list (Block XlsxCell)) (d : StratDisplay) (n : Z) :
  1 ≤ Nh_sum (STRAT_VAR_MAP d) (load_data sheet) →
  let rounded := assign_nh n (groupby_size (STRAT_VAR_MAP d) (load_data sheet)) in
  let diff := n - sumZ (nh <$> rounded) in
  2 * Z.abs diff ≤ Z.of_nat (length rounded).
Proof.
  intros HN rounded diff. set (c := STRAT_VAR_MAP d) in *.
  set (df0 := load_data sheet) in *.
  rewrite Nh_sum_notna in HN.
  set (N := Z.of_nat (length (notna c df0))) in *.
  assert (rounded = stratum_of c n df0 <$> group_keys c df0) as Hr
    by apply assign_nh_groupby.
  assert (Forall (λ s, Z.abs (2 * N * nh s - 2 * n * Nh s) ≤ N) rounded) as Hall.
  { rewrite Hr. apply Forall_forall. intros s Hs.
    pose proof Hs as (_ & _ & ->)%elem_of_strata. fold N.
    destruct (np_round_div_nearest (n * Nh s) N ltac:(lia)) as [Hb _].
    replace (2 * N * np_round_div (n * Nh s) N - 2 * n * Nh s)
      with (2 * N * np_round_div (n * Nh s) N - 2 * (n * Nh s)) by lia.
    done. }
  pose proof (sumZ_abs_bound (λ s, 2 * N * nh s - 2 * n * Nh s) N rounded Hall)
    as Hsum.
  rewrite (sumZ_fmap_sub (λ s, 2 * N * nh s) (λ s, 2 * n * Nh s)) in Hsum.
  rewrite (sumZ_fmap_scale nh (2 * N)), (sumZ_fmap_scale Nh (2 * n)) in Hsum.
  assert (sumZ (Nh <$> rounded) = N) as HNh.
  { rewrite Hr. apply sum_Nh_strata. }
  rewrite HNh in Hsum. subst diff.
  set (S := sumZ (nh <$> rounded)) in *. set (k := Z.of_nat (length rounded)) in *.
  nia.
Qed.

(** X3.  Before the correction the allocation is monotone in the stratum
    size: for [n >= 0] a stratum with no more rows than another gets no
    larger an [nh], and strata of equal size get equal [nh]. *)
Theorem rounded_shares_monotone
    (sheet : list (Block XlsxCell)) (d : StratDisplay) (n : Z) (s1 s2 : Stratum) :
  0 ≤ n →
  s1 ∈ assign_nh n (groupby_size (STRAT_VAR_MAP d) (load_data sheet)) →
  s2 ∈ assign_nh n (groupby_size (STRAT_VAR_MAP d) (load_data sheet)) →
  Nh s1 ≤ Nh s2 →
  nh s1 ≤ nh s2 ∧ (Nh s1 = Nh s2 → nh s1 = nh s2).
Proof.
  intros Hn Hs1 Hs2 Hle. rewrite assign_nh_groupby in Hs1, Hs2.
  pose proof Hs1 as (Hk & _ & ->)%elem_of_strata.
  pose proof Hs2 as (_ & _ & ->)%elem_of_strata.
  apply group_keys_notna_pos in Hk.
  split.
  - apply np_round_div_mono; [lia|nia].
  - by intros ->.
Qed.

(** X4.  When the table has a row and every share [n * Nh / N] is an
    integer, [N] being the sum of the [Nh] column, the rounded table is the
    exact proportional allocation, the residual is zero and the table is
    returned as it is. *)
Theorem integral_shares_need_no_correction
    (sheet : list (Block XlsxCell)) (d : StratDisplay) (n : Z) :
  let N := Nh_sum (STRAT_VAR_MAP d) (load_data sheet) in
  let rounded := assign_nh n (groupby_size (STRAT_VAR_MAP d) (load_data sheet)) in
  1 ≤ N →
  Forall (λ s, (N | n * Nh s)) rounded →
  Forall (λ s, nh s * N = n * Nh s) rounded ∧
  n - sumZ (nh <$> rounded) = 0 ∧
  allocate (STRAT_VAR_MAP d) n (load_data sheet) = Ok rounded.
Proof.
  intros N rounded HN Hdiv. set (c := STRAT_VAR_MAP d) in *.
  set (df0 := load_data sheet) in *.
  assert (Z.of_nat (length (notna c df0)) = N) as Hlen
    by (symmetry; apply Nh_sum_notna).
  assert (rounded = stratum_of c n df0 <$> group_keys c df0) as Hr
    by apply assign_nh_groupby.
  assert (Forall (λ s, nh s * N = n * Nh s) rounded) as Hexact.
  { apply Forall_forall. intros s Hs.
    pose proof (proj1 (Forall_forall _ _) Hdiv s Hs) as [q Hq].
    rewrite Hr in Hs. pose proof Hs as (_ & _ & ->)%elem_of_strata.
    rewrite Hlen, Hq, np_round_div_exact by lia. done. }
  assert (n - sumZ (nh <$> rounded) = 0) as Hdiff.
  { assert (N * sumZ (nh <$> rounded) = n * N) as Hsum.
    { rewrite <-(sumZ_fmap_scale nh N).
      rewrite (sumZ_fmap_ext (λ s, N * nh s) (λ s, n * Nh s)).
      - rewrite (sumZ_fmap_scale Nh n). f_equal.
        rewrite Hr, sum_Nh_strata. done.
      - intros s Hs. pose proof (proj1 (Forall_forall _ _) Hexact s Hs) as He.
        simpl in He. lia. }
    nia. }
  split; [done|]. split; [done|].
  unfold allocate. fold c df0 rounded. rewrite Hdiff. by case_decide.
Qed.

(** ** Further properties of the reader *)





(** ** Further properties of the sampler *)

Lemma take_rows_rows_at obj idx rows :
  take_rows obj idx = Ok rows ↔ rows_at obj idx rows.
Proof.
  unfold take_rows, rows_at. rewrite <-mapM_Some.
  destruct (mapM _ idx); split; intros Heq; by simplify_eq.
Qed.

Lemma take_rows_take obj idx rows k :
  take_rows obj idx = Ok rows → take_rows obj (take k idx) = Ok (take k rows).
Proof. rewrite !take_rows_rows_at. apply Forall2_take. Qed.

Section SamplerFacts.
Context {R : NumpyRandom}.

(** The positions that a generator seeded with [s] draws from a frame of
    [N] rows: its shuffled [arange(N)]. *)
Lemma seeded_sample_unfold obj n s :
  0 ≤ n ≤ Z.of_nat (length obj) →
  seeded_sample obj n s =
    take_rows obj (take (Z.to_nat n) (permutation (seed_state s) (length obj)).1).
Proof.
  intros Hn. unfold seeded_sample, choice.
  destruct (decide (n < 0)); [lia|].
  destruct (decide (length obj = 0%nat ∧ Z.to_nat n ≠ 0%nat)) as [[? ?]|_]; [lia|].
  destruct (decide (length obj < Z.to_nat n)%nat); [lia|].
  by destruct (permutation (seed_state s) (length obj)).
Qed.

Lemma seeded_sample_empty_population n s :
  0 < n → seeded_sample [] n s = Raise EmptyPopulation.
Proof.
  intros Hn. unfold seeded_sample, choice. destruct (decide (n < 0)); [lia|].
  simpl length.
  destruct (decide (0%nat = 0%nat ∧ Z.to_nat n ≠ 0%nat)) as [_|Hno]; [done|].
  destruct Hno. split; [done|lia].
Qed.

Lemma seeded_sample_Ok_inv obj n s rows :
  seeded_sample obj n s = Ok rows → 0 ≤ n ≤ Z.of_nat (length obj).
Proof.
  intros Hok.
  destruct (decide (n < 0)) as [Hneg|Hnn].
  { by rewrite seeded_sample_negative in Hok. }
  destruct (decide (n ≤ Z.of_nat (length obj))) as [|Hgt]; [lia|].
  destruct obj as [|r obj].
  - rewrite seeded_sample_empty_population in Hok; [done|simpl in Hgt; lia].
  - rewrite seeded_sample_larger in Hok; [done|done|lia].
Qed.

Lemma seeded_sample_prefix obj n1 n2 s rows :
  0 ≤ n1 ≤ n2 → seeded_sample obj n2 s = Ok rows →
  seeded_sample obj n1 s = Ok (take (Z.to_nat n1) rows).
Proof.
  intros Hn Hok. pose proof (seeded_sample_Ok_inv _ _ _ _ Hok) as Hn2.
  rewrite seeded_sample_unfold in Hok by lia.
  rewrite seeded_sample_unfold by lia.
  apply (take_rows_take _ _ _ (Z.to_nat n1)) in Hok.
  rewrite take_take in Hok.
  by replace (Z.to_nat n1 `min` Z.to_nat n2)%nat with (Z.to_nat n1) in Hok by lia.
Qed.

Lemma seeded_sample_positions obj n s rows :
  seeded_sample obj n s = Ok rows →
  rows_at obj (take (Z.to_nat n) (permutation (seed_state s) (length obj)).1) rows.
Proof.
  intros Hok. pose proof (seeded_sample_Ok_inv _ _ _ _ Hok) as Hn.
  rewrite seeded_sample_unfold in Hok by lia. by apply take_rows_rows_at.
Qed.

(** Settles the four equivalences of [srswor_outcome] once the result of
    the draw is known. *)
Local Ltac outcome_cases :=
  split_and!; (split; intros ?); destruct_and?;
  repeat match goal with H : ∃ _, _ |- _ => destruct H end;
  simplify_eq; try done; try lia; try (simpl in *; lia); eauto;
  try (split; [done|simpl in *; lia]).

(** X5.  The SRSWOR branch returns exactly when [0 <= n <= N]; a negative
    [n], a positive [n] on an empty frame and an [n] beyond the rows of a
    non-empty frame each end in the sampler's exception for that case. *)
Theorem srswor_outcome (sheet : list (Block XlsxCell)) (n : Z) (g : RandomState) :
  let w := init_world R sheet g in
  let N := Z.of_nat (length sheet) in
  ((∃ smp, (srswor n w).1 = Ok smp) ↔ 0 ≤ n ≤ N) ∧
  ((srswor n w).1 = Raise NegativeRows ↔ n < 0) ∧
  ((srswor n w).1 = Raise EmptyPopulation ↔ sheet = [] ∧ 0 < n) ∧
  ((srswor n w).1 = Raise LargerSample ↔ sheet ≠ [] ∧ N < n).
Proof.
  intros w N. rewrite srswor_run. simpl.
  assert (Z.of_nat (length (load_data sheet)) = N) as Hlen
    by (by rewrite load_data_length).
  destruct (decide (n < 0)) as [Hneg|Hnn].
  { rewrite seeded_sample_negative by done.
    outcome_cases. }
  destruct (decide (n ≤ N)) as [Hle|Hgt].
  { destruct (seeded_sample_Ok (load_data sheet) n 42) as (idx & rows & -> & _);
      [lia|].
    outcome_cases. }
  destruct sheet as [|b sheet].
  - change (load_data []) with (@nil Row).
    assert (0 < n) as Hpos by (simpl in *; lia).
    rewrite seeded_sample_empty_population by done.
    outcome_cases.
  - rewrite seeded_sample_larger; [|by apply load_data_nonempty|lia].
    outcome_cases.
Qed.

(** X6.  With [n = N] the SRSWOR branch returns every row of the frame
    exactly once, in the order of the generator's permutation. *)
Theorem srswor_census (sheet : list (Block XlsxCell)) (g : RandomState) :
  let w := init_world R sheet g in
  ∃ smp,
    srswor (Z.of_nat (length sheet)) w = (Ok smp, w) ∧
    smp ≡ₚ load_data sheet.
Proof.
  intros w. rewrite srswor_run. simpl. set (df0 := load_data sheet).
  destruct (seeded_sample_Ok df0 (Z.of_nat (length sheet)) 42)
    as (idx & rows & Hrows & Hat & Hidx & Hlen).
  { unfold df0. rewrite load_data_length. lia. }
  exists rows. rewrite Hrows. split; [done|].
  apply submseteq_length_Permutation.
  - apply NoDup_submseteq.
    + eapply NoDup_fmap_1, rows_at_NoDup; [done..|]. apply load_data_NoDup.
    + intros r Hr. by eapply rows_at_subseteq.
  - unfold df0. rewrite load_data_length. lia.
Qed.

(** X7.  Samples of the SRSWOR branch are nested: for [n1 <= n2] the sample
    of size [n1] is the first [n1] rows of the sample of size [n2]. *)
Theorem srswor_samples_nested (sheet : list (Block XlsxCell)) (n1 n2 : Z) (g : RandomState) :
  0 ≤ n1 ≤ n2 → n2 ≤ Z.of_nat (length sheet) →
  let w := init_world R sheet g in
  ∃ smp2,
    srswor n2 w = (Ok smp2, w) ∧
    srswor n1 w = (Ok (take (Z.to_nat n1) smp2), w).
Proof.
  intros Hn1 Hn2 w. rewrite !srswor_run. simpl.
  destruct (seeded_sample_Ok (load_data sheet) n2 42) as (idx & rows & Hrows & _).
  { rewrite load_data_length. lia. }
  exists rows. rewrite Hrows. split; [done|].
  by rewrite (seeded_sample_prefix _ n1 n2 42 rows).
Qed.

(** X8.  The preview [sample.head(k)] of the SRSWOR branch does not depend
    on the requested size: any two sizes of at least [k] within the frame
    show the same [k] rows. *)
Theorem srswor_preview_stable
    (sheet : list (Block XlsxCell)) (k : nat) (n n' : Z) (g : RandomState) :
  Z.of_nat k ≤ n ≤ Z.of_nat (length sheet) →
  Z.of_nat k ≤ n' ≤ Z.of_nat (length sheet) →
  let w := init_world R sheet g in
  ∃ smp smp',
    srswor n w = (Ok smp, w) ∧ srswor n' w = (Ok smp', w) ∧
    head k smp = head k smp' ∧ length (head k smp) = k.
Proof.
  intros Hn Hn' w. rewrite !srswor_run. simpl. set (df0 := load_data sheet).
  assert (Z.of_nat (length df0) = Z.of_nat (length sheet)) as Hlen
    by (unfold df0; by rewrite load_data_length).
  destruct (seeded_sample_Ok df0 n 42) as (idx & rows & Hrows & _ & _ & Hl); [lia|].
  destruct (seeded_sample_Ok df0 n' 42) as (idx' & rows' & Hrows' & _); [lia|].
  exists rows, rows'. rewrite Hrows, Hrows'. split; [done|]. split; [done|].
  pose proof (seeded_sample_prefix df0 (Z.of_nat k) n 42 rows ltac:(lia) Hrows) as H1.
  pose proof (seeded_sample_prefix df0 (Z.of_nat k) n' 42 rows' ltac:(lia) Hrows') as H2.
  rewrite H1, Nat2Z.id in H2. injection H2 as H2.
  unfold head. split; [done|]. apply length_take_le. lia.
Qed.

(** X9.  The seed is reused: two frames of the same length, such as two
    strata of equal size, sampled with the same [n] yield the rows at the
    same positions, in the same order. *)
Theorem equal_frames_same_positions
    (obj1 obj2 smp1 smp2 : DataFrame) (n : Z) (w1 w2 : world) :
  length obj1 = length obj2 →
  (sample obj1 n (Some 42) w1).1 = Ok smp1 →
  (sample obj2 n (Some 42) w2).1 = Ok smp2 →
  ∃ idx, NoDup idx ∧ length idx = Z.to_nat n ∧
         rows_at obj1 idx smp1 ∧ rows_at obj2 idx smp2.
Proof.
  intros Hlen. rewrite !sample_seeded. simpl. intros H1 H2.
  pose proof (seeded_sample_Ok_inv _ _ _ _ H1) as Hn.
  apply seeded_sample_positions in H1, H2. rewrite <-Hlen in H2.
  pose proof (permutation_Permutation (seed_state 42) (length obj1)) as Hperm.
  set (p := (permutation (seed_state 42) (length obj1)).1) in *.
  exists (take (Z.to_nat n) p). split; [|split; [|done]].
  - eapply sublist_NoDup; [|apply sublist_take]. rewrite Hperm. apply NoDup_seq.
  - apply length_take_le. rewrite Hperm, length_seq. lia.
Qed.

(** X10.  Neither branch writes to the ambient state, whether it returns
    or raises: [df] and the global generator are as before. *)
Theorem branches_leave_state (w : world) (n : Z) (d : StratDisplay) :
  (srswor n w).2 = w ∧ (stratified n d w).2 = w.
Proof. by rewrite srswor_run, stratified_run. Qed.

End SamplerFacts.
(** ** Further properties of the stratified branch *)

Lemma mapM_res_Ok_inv {A B} (g : A → res B) l ks :
  mapM g l = Ok ks → Forall2 (λ x y, g x = Ok y) l ks.
Proof.
  revert ks. induction l as [|x l IH]; intros ks; simpl.
  - intros [= <-]. constructor.
  - destruct (g x) as [y|e] eqn:Hx; simpl; [|done].
    destruct (mapM g l) as [ys|e] eqn:Hl; simpl; [|done].
    intros [= <-]. constructor; [done|]. by apply IH.
Qed.

Lemma StronglySorted_replicate (k : Scalar) (m : nat) :
  StronglySorted key_le (replicate m k).
Proof.
  induction m as [|m IH]; simpl; constructor; [done|].
  apply Forall_forall. intros y [-> _]%elem_of_replicate. apply key_le_refl.
Qed.

Lemma select_eq_none c k (d : DataFrame) :
  (∀ r, r ∈ d → key_of c r ≠ Some k) → select_eq c k d = [].
Proof.
  induction d as [|r d IH]; intros Hall; [done|].
  rewrite select_eq_cons. destruct (decide (key_of c r = Some k)) as [Heq|_].
  - destruct (Hall r); [left|done].
  - apply IH. intros r' Hr'. apply Hall. by right.
Qed.

(** The rows of each stratum in the combined sample. *)
Lemma drawn_group_count c d strata samples :
  NoDup (key <$> strata) → Forall2 (drawn c d) strata samples →
  Forall (λ s, group_size c (concat samples) (key s) = nh s) strata.
Proof.
  intros Hnd Hall. induction Hall as [|s smp strata samples Hs Hall IH].
  { constructor. }
  csimpl in Hnd. apply NoDup_cons in Hnd as [Hk Hnd].
  destruct Hs as (Hlen & Hin & _).
  constructor.
  - unfold group_size, select_eq. simpl. rewrite filter_app, length_app.
    fold (select_eq c (key s) smp) (select_eq c (key s) (concat samples)).
    rewrite (select_eq_all c (key s) smp), (select_eq_none c (key s) (concat samples)).
    + simpl. lia.
    + intros r Hr Heq.
      destruct (drawn_elem_of _ _ _ _ _ Hall Hr) as [_ (k & Hrk & Hk')].
      apply Hk. unfold key_of in Heq. rewrite Heq in Hrk. by injection Hrk as <-.
    + intros r Hr. by destruct (Hin r Hr).
  - specialize (IH Hnd). apply Forall_forall. intros s' Hs'.
    pose proof (proj1 (Forall_forall _ _) IH s' Hs') as Hcount. simpl in Hcount.
    unfold group_size, select_eq in *. simpl. rewrite filter_app, length_app.
    fold (select_eq c (key s') smp).
    rewrite (select_eq_none c (key s') smp); [simpl; lia|].
    intros r Hr Heq. destruct (Hin r Hr) as [_ Hrk].
    apply Hk. unfold key_of in Heq. rewrite Heq in Hrk. injection Hrk as <-.
    apply list_elem_of_fmap. by exists s'.
Qed.

Lemma fmap_key_of_constant c k (smp : DataFrame) :
  (∀ r, r ∈ smp → key_of c r = Some k) →
  key_of c <$> smp = Some <$> replicate (length smp) k.
Proof.
  induction smp as [|r smp IH]; intros Hall; [done|].
  csimpl. rewrite (Hall r) by left. f_equal.
  apply IH. intros r' Hr'. apply Hall. by right.
Qed.

(** The combined sample lists the strata in the order of the table, and
    holds no row whose cell is missing. *)
Lemma drawn_keys c d strata samples :
  Forall2 (drawn c d) strata samples →
  ∃ keys, key_of c <$> concat samples = Some <$> keys ∧
          Forall (λ k, k ∈ key <$> strata) keys ∧
          (StronglySorted key_le (key <$> strata) → StronglySorted key_le keys).
Proof.
  induction 1 as [|s smp strata samples Hs Hall (keys & Heq & Hin & Hsorted)].
  { exists []. split; [done|]. split; constructor. }
  destruct Hs as (_ & Hsmp & _).
  exists (replicate (length smp) (key s) ++ keys).
  split; [|split].
  - simpl. rewrite !fmap_app, Heq. f_equal.
    apply fmap_key_of_constant. intros r Hr. by destruct (Hsmp r Hr).
  - apply Forall_app. split.
    + apply Forall_forall. intros k [-> _]%elem_of_replicate. csimpl. left.
    + eapply Forall_impl; [exact Hin|]. intros k Hk. csimpl. by right.
  - csimpl. intros [Hle Hs]%StronglySorted_cons.
    apply StronglySorted_app_2.
    + intros k1 k2 [-> _]%elem_of_replicate Hk2.
      apply (proj1 (Forall_forall _ _) Hle).
      by apply (proj1 (Forall_forall _ _) Hin).
    + apply StronglySorted_replicate.
    + by apply Hsorted.
Qed.

Section StratifiedFacts.
Context {R : NumpyRandom}.
Variable c : Column.

Lemma draw_rows_negative (d : DataFrame) s :
  nh s < 0 → draw_rows c d s = Raise NegativeRows.
Proof. intros Hn. unfold draw_rows. by apply seeded_sample_negative. Qed.

Lemma draw_rows_Ok_inv (d : DataFrame) s smp :
  NoDup (label <$> d) → draw_rows c d s = Ok smp →
  0 ≤ nh s ≤ group_size c d (key s) ∧ drawn c d s smp.
Proof.
  intros Hd Hok. unfold draw_rows in Hok.
  pose proof (seeded_sample_Ok_inv _ _ _ _ Hok) as Hn.
  split; [done|].
  destruct (draw_rows_Ok c d {| key := key s; Nh := group_size c d (key s); nh := nh s |})
    as (smp' & Hsmp' & Hdrawn); [done|done|done|].
  unfold draw_rows in Hsmp'. simpl in Hsmp'. rewrite Hok in Hsmp'.
  injection Hsmp' as ->. exact Hdrawn.
Qed.

(** What a returning run of the stratified branch is made of. *)
Lemma stratified_of_Ok_inv n (d : DataFrame) strata final :
  NoDup (label <$> d) →
  stratified_of n c d = Ok (strata, final) →
  allocate c n d = Ok strata ∧ strata ≠ [] ∧
  ∃ samples, final = concat samples ∧ Forall2 (drawn c d) strata samples ∧
             Forall (λ s, 0 ≤ nh s ≤ group_size c d (key s)) strata.
Proof.
  intros Hd. unfold stratified_of.
  destruct (allocate c n d) as [strata'|e] eqn:Halloc; simpl; [|done].
  destruct (mapM (draw_rows c d) strata') as [samples|e] eqn:Hdraw; simpl; [|done].
  destruct samples as [|smp samples]; simpl; [done|].
  intros [= <- <-]. split; [done|].
  apply mapM_res_Ok_inv in Hdraw.
  split.
  { intros ->. inv Hdraw. }
  exists (smp :: samples). split; [done|]. split.
  - eapply Forall2_impl; [exact Hdraw|]. intros s smp' Hs.
    by destruct (draw_rows_Ok_inv d s smp' Hd Hs).
  - eapply Forall2_Forall_l; [exact Hdraw|].
    apply Forall_forall. intros smp' _ s Hs.
    by destruct (draw_rows_Ok_inv d s smp' Hd Hs).
Qed.

End StratifiedFacts.

Section StratifiedRuns.
Context {R : NumpyRandom}.

(** X11.  For [1 <= n <= N], [N] being the sum of the [Nh] column, the last
    row of the allocation table decides the run of the stratified branch:
    it returns when that row has [0 <= nh <= Nh], ends in the sampler's
    "larger sample" exception when [nh > Nh], and in its "negative rows"
    exception when [nh < 0]; no other exception occurs. *)
Theorem stratified_outcome
    (sheet : list (Block XlsxCell)) (d : StratDisplay) (n : Z) (g : RandomState) :
  1 ≤ n ≤ Nh_sum (STRAT_VAR_MAP d) (load_data sheet) →
  let w := init_world R sheet g in
  ∃ init last,
    allocate (STRAT_VAR_MAP d) n (load_data sheet) = Ok (init ++ [last]) ∧
    (0 ≤ nh last ≤ Nh last →
     ∃ final, stratified n d w = (Ok (init ++ [last], final), w)) ∧
    (Nh last < nh last → stratified n d w = (Raise LargerSample, w)) ∧
    (nh last < 0 → stratified n d w = (Raise NegativeRows, w)).
Proof.
  intros Hn w. set (c := STRAT_VAR_MAP d) in *. set (df0 := load_data sheet) in *.
  assert (group_keys c df0 ≠ []) as Hdf by (apply Nh_sum_pos; lia).
  rewrite Nh_sum_notna in Hn.
  destruct (allocate_shape c n df0 Hdf) as (init & last0 & Heq & Halloc).
  set (last := add_nh (n - sumZ (nh <$> init ++ [last0])) last0) in *.
  exists init, last. split; [exact Halloc|].
  assert (∀ s, s ∈ init ++ [last] →
               key s ∈ group_keys c df0 ∧ Nh s = group_size c df0 (key s)) as HNh.
  { intros s Hs. by apply (allocate_Nh c n df0 (init ++ [last])). }
  assert (feasible init) as Hinit.
  { apply Forall_forall. intros s Hs.
    assert (s ∈ stratum_of c n df0 <$> group_keys c df0) as Hs'.
    { rewrite <-assign_nh_groupby, Heq. apply elem_of_app. by left. }
    split.
    - eapply strata_nh_nonneg; [|exact Hs']. lia.
    - eapply strata_nh_le_Nh; [|exact Hs']. lia. }
  destruct (draw_rows_all_Ok c df0 init) as (samples & Hok & _).
  { apply load_data_NoDup. }
  { apply Forall_forall. intros s Hs. apply HNh, elem_of_app. by left. }
  { done. }
  apply mapM_res_Ok in Hok.
  assert (mapM (draw_rows c df0) (init ++ [last]) =
          y ← draw_rows c df0 last; mret (samples ++ [y])) as HmapM.
  { rewrite mapM_res_app, Hok. simpl.
    by destruct (draw_rows c df0 last). }
  assert (stratified n d w =
          (samples' ← (y ← draw_rows c df0 last; mret (samples ++ [y]));
           final_sample ← pd_concat samples';
           mret (init ++ [last], final_sample), w)) as Hrun.
  { rewrite stratified_run. simpl. fold df0 c. unfold stratified_of.
    rewrite Halloc. simpl. by rewrite HmapM. }
  destruct (HNh last) as [Hk HNhl].
  { apply elem_of_app. right. left. }
  split; [|split].
  - intros Hfeas.
    destruct (draw_rows_Ok c df0 last) as (smp & Hsmp & _);
      [apply load_data_NoDup|done|done|].
    exists (concat (samples ++ [smp])). rewrite Hrun, Hsmp. simpl.
    by destruct samples.
  - intros Hlt. rewrite Hrun, (draw_rows_larger c df0 last); done.
  - intros Hneg. rewrite Hrun, (draw_rows_negative c df0 last); done.
Qed.

(** X12.  Whenever the stratified branch returns, every row of the table
    has [0 <= nh <= Nh], the [nh] add up to [n], and the combined sample has
    exactly [n] rows, all rows of the frame, with pairwise distinct index
    labels. *)
Theorem stratified_returns_n_rows
    (sheet : list (Block XlsxCell)) (d : StratDisplay) (n : Z) (g : RandomState)
    (strata : list Stratum) (final : DataFrame) :
  (stratified n d (init_world R sheet g)).1 = Ok (strata, final) →
  feasible strata ∧
  sumZ (nh <$> strata) = n ∧
  Z.of_nat (length final) = n ∧
  NoDup (label <$> final) ∧
  (∀ r, r ∈ final → r ∈ load_data sheet).
Proof.
  rewrite stratified_run. simpl. set (c := STRAT_VAR_MAP d).
  set (df0 := load_data sheet). intros Hrun.
  destruct (stratified_of_Ok_inv c n df0 strata final) as
    (Halloc & Hdf & samples & -> & Hdrawn & Hbounds);
    [apply load_data_NoDup|done|].
  pose proof (allocate_sum c n df0 strata Halloc) as Hsum.
  split; [|split; [done|split; [|split]]].
  - apply Forall_forall. intros s Hs.
    destruct (allocate_Nh c n df0 strata s Halloc Hs) as [_ ->].
    by apply (proj1 (Forall_forall _ _) Hbounds).
  - by rewrite (drawn_length c df0 strata samples Hdrawn).
  - eapply drawn_NoDup; [apply load_data_NoDup| |exact Hdrawn].
    rewrite (allocate_keys c n df0 strata Halloc). apply group_keys_NoDup.
  - intros r Hr. by destruct (drawn_elem_of _ _ _ _ _ Hdrawn Hr).
Qed.

(** X13.  In a returned stratified sample each stratum is represented by
    exactly its [nh] rows: counting the rows of the sample by the
    stratification column gives back the [nh] column of the table. *)
Theorem stratified_counts_match_allocation
    (sheet : list (Block XlsxCell)) (d : StratDisplay) (n : Z) (g : RandomState)
    (strata : list Stratum) (final : DataFrame) :
  (stratified n d (init_world R sheet g)).1 = Ok (strata, final) →
  Forall (λ s, Z.of_nat (length (select_eq (STRAT_VAR_MAP d) (key s) final)) = nh s)
         strata.
Proof.
  rewrite stratified_run. simpl. set (c := STRAT_VAR_MAP d).
  set (df0 := load_data sheet). intros Hrun.
  destruct (stratified_of_Ok_inv c n df0 strata final) as
    (Halloc & Hdf & samples & -> & Hdrawn & _);
    [apply load_data_NoDup|done|].
  apply (drawn_group_count c df0); [|done].
  rewrite (allocate_keys c n df0 strata Halloc). apply group_keys_NoDup.
Qed.

(** X14.  A returned stratified sample lists the strata one after the other
    in the order of the table: every row has a value in the stratification
    column, and the column is in ascending order of [groupby], numbers by
    value before texts by code point. *)
Theorem stratified_sample_in_key_order
    (sheet : list (Block XlsxCell)) (d : StratDisplay) (n : Z) (g : RandomState)
    (strata : list Stratum) (final : DataFrame) :
  (stratified n d (init_world R sheet g)).1 = Ok (strata, final) →
  ∃ keys, key_of (STRAT_VAR_MAP d) <$> final = Some <$> keys ∧
          StronglySorted key_le keys.
Proof.
  rewrite stratified_run. simpl. set (c := STRAT_VAR_MAP d).
  set (df0 := load_data sheet). intros Hrun.
  destruct (stratified_of_Ok_inv c n df0 strata final) as
    (Halloc & Hdf & samples & -> & Hdrawn & _);
    [apply load_data_NoDup|done|].
  destruct (drawn_keys c df0 strata samples Hdrawn) as (keys & Heq & _ & Hsorted).
  exists keys. split; [done|]. apply Hsorted.
  rewrite (allocate_keys c n df0 strata Halloc). apply group_keys_sorted.
Qed.

(** X15.  On an empty frame the stratified branch never returns: the
    correction of the last row raises the indexer's exception when [n] is
    not 0, and for [n = 0] the concatenation of no samples raises. *)
Theorem stratified_on_empty_frame (d : StratDisplay) (n : Z) (g : RandomState) :
  let w := init_world R [] g in
  stratified n d w =
    (Raise (if decide (n = 0) then NoObjectsToConcatenate else IndexerOutOfBounds), w).
Proof.
  intros w. rewrite stratified_run. simpl. f_equal.
  unfold stratified_of, allocate. simpl.
  destruct (decide (n = 0)) as [->|Hn]; case_decide; try done; lia.
Qed.

(** X17.  On a non-empty sheet the initial value of the sample-size input,
    [min(500, N)], lies within the bounds 1 and [N] of the input, and the
    SRSWOR branch run with it returns that many rows. *)
Theorem default_size_is_accepted (sheet : list (Block XlsxCell)) (g : RandomState) :
  sheet ≠ [] →
  let w := init_world R sheet g in
  let n := default_n (df w) in
  1 ≤ n ≤ Z.of_nat (length sheet) ∧
  ∃ smp, srswor n w = (Ok smp, w) ∧
         Z.of_nat (length smp) = Z.min 500 (Z.of_nat (length sheet)).
Proof.
  intros Hne w n. subst n w. simpl. unfold default_n.
  rewrite load_data_length.
  assert (1 ≤ Z.of_nat (length sheet)) by (destruct sheet; [done|simpl; lia]).
  split; [lia|]. rewrite srswor_run. simpl.
  destruct (seeded_sample_Ok (load_data sheet) (Z.min 500 (Z.of_nat (length sheet))) 42)
    as (idx & rows & -> & _ & _ & Hl).
  { rewrite load_data_length. lia. }
  by exists rows.
Qed.

(** X19.  On a frame whose stratification column holds no value, only
    blank cells and missing-value markers, the stratified branch never
    returns: the table has no row, the correction raises the indexer's
    exception when [n] is not 0, and for [n = 0] the concatenation of no
    samples raises.  The SRSWOR branch returns on the same frame for every
    size that the input accepts. *)
Theorem stratified_without_strata
    (sheet : list (Block XlsxCell)) (d : StratDisplay) (n : Z) (g : RandomState) :
  (∀ r, r ∈ load_data sheet → key_of (STRAT_VAR_MAP d) r = None) →
  let w := init_world R sheet g in
  groupby_size (STRAT_VAR_MAP d) (load_data sheet) = [] ∧
  stratified n d w =
    (Raise (if decide (n = 0) then NoObjectsToConcatenate else IndexerOutOfBounds), w) ∧
  (1 ≤ n ≤ Z.of_nat (length sheet) → ∃ smp, srswor n w = (Ok smp, w)).
Proof.
  intros Hall w. set (c := STRAT_VAR_MAP d) in *.
  pose proof (group_keys_all_missing c _ Hall) as Hnil.
  split; [|split].
  - unfold groupby_size. by rewrite Hnil.
  - unfold w. rewrite stratified_run. simpl. f_equal. fold c.
    unfold stratified_of. rewrite (allocate_no_strata c n _ Hnil).
    by destruct (decide (n = 0)).
  - intros Hn. unfold w. rewrite srswor_run. simpl.
    destruct (seeded_sample_Ok (load_data sheet) n 42) as (idx & rows & -> & _).
    { rewrite load_data_length. lia. }
    by exists rows.
Qed.

(** X20.  A run of the stratified branch that returns was asked for at
    most [N = strata['Nh'].sum()] rows, and its sample holds no row whose
    stratification cell is missing.  A size between [N] and [len(df)],
    which the input accepts when cells are missing, therefore ends in an
    exception. *)
Theorem stratified_within_valid_rows
    (sheet : list (Block XlsxCell)) (d : StratDisplay) (n : Z) (g : RandomState)
    (strata : list Stratum) (final : DataFrame) :
  (stratified n d (init_world R sheet g)).1 = Ok (strata, final) →
  0 ≤ n ≤ Nh_sum (STRAT_VAR_MAP d) (load_data sheet) ∧
  Nh_sum (STRAT_VAR_MAP d) (load_data sheet) ≤ Z.of_nat (length sheet) ∧
  (∀ r, r ∈ final → is_Some (key_of (STRAT_VAR_MAP d) r)).
Proof.
  rewrite stratified_run. simpl. set (c := STRAT_VAR_MAP d).
  set (df0 := load_data sheet). intros Hrun.
  destruct (stratified_of_Ok_inv c n df0 strata final) as
    (Halloc & Hdf & samples & -> & Hdrawn & Hbounds);
    [apply load_data_NoDup|done|].
  pose proof (allocate_sum c n df0 strata Halloc) as Hsum.
  pose proof (allocate_Nh_sum c n df0 strata Halloc) as HN.
  assert (feasible strata) as Hfeas.
  { apply Forall_forall. intros s Hs.
    destruct (allocate_Nh c n df0 strata s Halloc Hs) as [_ ->].
    by apply (proj1 (Forall_forall _ _) Hbounds). }
  split; [|split].
  - rewrite <-Hsum, <-HN. split.
    + apply sumZ_fmap_nonneg. eapply Forall_impl; [exact Hfeas|]. simpl. lia.
    + apply sumZ_fmap_le. eapply Forall_impl; [exact Hfeas|]. simpl. lia.
  - pose proof (Nh_sum_le_length c df0) as Hle.
    unfold df0 in Hle at 2. by rewrite load_data_length in Hle.
  - intros r Hr.
    destruct (drawn_elem_of _ _ _ _ _ Hdrawn Hr) as [_ (k & Hk & _)].
    unfold key_of. by rewrite Hk.
Qed.

End StratifiedRuns.

Section StratifiedCensus.
Context {R : NumpyRandom}.

(** X18.  With [n = N], the sum of the [Nh] column, on a frame that has a
    stratum the stratified branch returns and its combined sample holds
    every row with a value in the stratification column exactly once; when
    no cell of the column is missing that is every row of the frame. *)
Theorem stratified_census
    (sheet : list (Block XlsxCell)) (d : StratDisplay) (g : RandomState) :
  1 ≤ Nh_sum (STRAT_VAR_MAP d) (load_data sheet) →
  let w := init_world R sheet g in
  ∃ strata final,
    stratified (Nh_sum (STRAT_VAR_MAP d) (load_data sheet)) d w =
      (Ok (strata, final), w) ∧
    Forall (λ s, nh s = Nh s) strata ∧
    final ≡ₚ notna (STRAT_VAR_MAP d) (load_data sheet) ∧
    ((∀ r, r ∈ load_data sheet → is_Some (key_of (STRAT_VAR_MAP d) r)) →
     final ≡ₚ load_data sheet).
Proof.
  intros HN w. set (c := STRAT_VAR_MAP d) in *. set (df0 := load_data sheet) in *.
  set (n := Nh_sum c df0) in *.
  assert (group_keys c df0 ≠ []) as Hdf by (by apply Nh_sum_pos).
  assert (Z.of_nat (length (notna c df0)) = n) as Hlen
    by (symmetry; apply Nh_sum_notna).
  set (strata := stratum_of c n df0 <$> group_keys c df0).
  assert (Forall (λ s, nh s = Nh s) strata) as Hcensus.
  { apply Forall_forall. intros s Hs.
    pose proof Hs as (_ & _ & ->)%elem_of_strata.
    rewrite Hlen, Z.mul_comm. apply np_round_div_exact. lia. }
  assert (allocate c n df0 = Ok strata) as Halloc.
  { unfold allocate. rewrite assign_nh_groupby. fold strata.
    rewrite (sumZ_fmap_ext nh Nh) by (by apply Forall_forall).
    unfold strata. rewrite sum_Nh_strata, Hlen.
    case_decide; [lia|done]. }
  assert (∀ s, s ∈ strata →
               key s ∈ group_keys c df0 ∧ Nh s = group_size c df0 (key s)) as HNh.
  { intros s (? & ? & _)%elem_of_strata. done. }
  destruct (draw_rows_all_Ok c df0 strata) as (samples & Hok & Hdrawn).
  { apply load_data_NoDup. }
  { apply Forall_forall. intros s Hs. by apply HNh. }
  { apply Forall_forall. intros s Hs.
    pose proof (proj1 (Forall_forall _ _) Hcensus s Hs) as Heq. simpl in Heq.
    destruct (HNh s Hs) as [Hk HNhs].
    pose proof (group_size_pos c df0 _ Hk). lia. }
  apply mapM_res_Ok in Hok.
  assert (samples ≠ []) as Hsamples.
  { intros ->. apply Forall2_nil_inv_r in Hdrawn.
    by apply fmap_nil_inv in Hdrawn. }
  assert (concat samples ≡ₚ notna c df0) as Hperm.
  { apply submseteq_length_Permutation.
    - apply NoDup_submseteq.
      + eapply NoDup_fmap_1, (drawn_NoDup c df0 strata);
          [apply load_data_NoDup| |done].
        unfold strata. rewrite <-list_fmap_compose.
        change (key ∘ stratum_of c n df0) with (@id Scalar).
        rewrite list_fmap_id. apply group_keys_NoDup.
      + intros r Hr.
        destruct (drawn_elem_of _ _ _ _ _ Hdrawn Hr) as [Hrd (k & Hk & _)].
        unfold notna. apply list_elem_of_filter. split; [|done].
        unfold key_of. by rewrite Hk.
    - pose proof (drawn_length c df0 strata samples Hdrawn) as Hl.
      rewrite (sumZ_fmap_ext nh Nh) in Hl by (by apply Forall_forall).
      unfold strata in Hl. rewrite sum_Nh_strata in Hl. lia. }
  exists strata, (concat samples). split; [|split; [done|split; [done|]]].
  - unfold w. rewrite stratified_run. simpl. fold df0 c. unfold stratified_of.
    rewrite Halloc. simpl. rewrite Hok. simpl. by destruct samples.
  - intros Hall. by rewrite Hperm, notna_all.
Qed.

End StratifiedCensus.

(** ** The allocation in binary64 *)

(** X16.  On a sheet of fewer than [2^26] rows and for [0 <= n <= len(df)],
    the [nh] column computed as numpy computes it, with the quotient
    [n * Nh / N] taken in binary64 and rounded by [np.round], is the column
    obtained by rounding the exact quotients to nearest, ties to even. *)
Theorem binary64_allocation_agrees
    (sheet : list (Block XlsxCell)) (d : StratDisplay) (n : Z) :
  0 ≤ n ≤ Z.of_nat (length sheet) → Z.of_nat (length sheet) < 2 ^ 26 →
  assign_nh_f64 n (groupby_size (STRAT_VAR_MAP d) (load_data sheet)) =
  assign_nh n (groupby_size (STRAT_VAR_MAP d) (load_data sheet)).
Proof.
  intros Hn HN. set (c := STRAT_VAR_MAP d). set (df0 := load_data sheet).
  assert (Z.of_nat (length df0) = Z.of_nat (length sheet)) as Hlen
    by (unfold df0; by rewrite load_data_length).
  unfold assign_nh_f64, assign_nh.
  rewrite groupby_size_snd, sum_group_size.
  apply list_fmap_ext. intros i g Hg.
  apply list_elem_of_lookup_2 in Hg. unfold groupby_size in Hg.
  apply list_elem_of_fmap in Hg as (k & -> & Hk). simpl.
  pose proof (group_size_nonneg c df0 k) as H0.
  pose proof (group_size_le c df0 k) as Hle.
  pose proof (group_size_le_notna c df0 k) as Hle'.
  pose proof (group_size_pos c df0 k Hk) as Hpos.
  pose proof (length_filter (λ r, is_Some (key_of c r)) df0) as Hnotna.
  fold (notna c df0) in Hnotna.
  rewrite f64_round_div_exact; [done| |lia].
  split; [lia|].
  assert (n * group_size c df0 k ≤ Z.of_nat (length df0) * Z.of_nat (length df0))
    by nia.
  assert (Z.of_nat (length df0) * Z.of_nat (length df0) < 2 ^ 26 * 2 ^ 26) by nia.
  change (2 ^ 26 * 2 ^ 26) with (2 ^ 52) in *. lia.
Qed.

(** ** The further properties at concrete frames *)

(** X2 at strata of 3, 3, 3, 3 and 1 blocks with [n = 2]. *)
Lemma residual_bounded_by_strata_witness :
  1 ≤ Nh_sum (STRAT_VAR_MAP DisplayRegion) (load_data sheet_small) ∧
  let rounded := assign_nh 2 (groupby_size (STRAT_VAR_MAP DisplayRegion)
                                           (load_data sheet_small)) in
  let diff := 2 - sumZ (nh <$> rounded) in
  2 * Z.abs diff ≤ Z.of_nat (length rounded).
Proof.
  assert (1 ≤ Nh_sum (STRAT_VAR_MAP DisplayRegion) (load_data sheet_small)) as H1
    by (by vm_compute).
  split; [exact H1|].
  exact (residual_bounded_by_strata sheet_small DisplayRegion 2 H1).
Defined.

(** X3 at strata of 3, 3, 3, 3 and 1 blocks with [n = 4], for the strata
    "e" and "a". *)
Lemma rounded_shares_monotone_witness :
  let rounded := assign_nh 4 (groupby_size (STRAT_VAR_MAP DisplayRegion)
                                           (load_data sheet_small)) in
  let s1 := {| key := Str "e"; Nh := 1; nh := 0 |} in
  let s2 := {| key := Str "a"; Nh := 3; nh := 1 |} in
  (0 ≤ 4 ∧ s1 ∈ rounded ∧ s2 ∈ rounded ∧ Nh s1 ≤ Nh s2) ∧
  nh s1 ≤ nh s2 ∧ (Nh s1 = Nh s2 → nh s1 = nh s2).
Proof.
  intros rounded s1 s2.
  assert (0 ≤ 4) as H1 by lia.
  assert (s1 ∈ rounded) as H2 by (apply (list_elem_of_lookup_2 _ 4); by vm_compute).
  assert (s2 ∈ rounded) as H3 by (apply (list_elem_of_lookup_2 _ 0); by vm_compute).
  assert (Nh s1 ≤ Nh s2) as H4 by (by vm_compute).
  split; [exact (conj H1 (conj H2 (conj H3 H4)))|].
  exact (rounded_shares_monotone sheet_small DisplayRegion 4 s1 s2 H1 H2 H3 H4).
Defined.

(** X4 at strata of 4, 4 and 2 blocks with [n = 5]: shares 2, 2 and 1. *)
Lemma integral_shares_need_no_correction_witness :
  let N := Nh_sum (STRAT_VAR_MAP DisplayRegion) (load_data sheet_integral) in
  let rounded := assign_nh 5 (groupby_size (STRAT_VAR_MAP DisplayRegion)
                                           (load_data sheet_integral)) in
  (1 ≤ N ∧ Forall (λ s, (N | 5 * Nh s)) rounded) ∧
  Forall (λ s, nh s * N = 5 * Nh s) rounded ∧
  5 - sumZ (nh <$> rounded) = 0 ∧
  allocate (STRAT_VAR_MAP DisplayRegion) 5 (load_data sheet_integral) = Ok rounded.
Proof.
  intros N rounded.
  assert (1 ≤ N) as H1 by (by vm_compute).
  assert (Forall (λ s, (N | 5 * Nh s)) rounded) as H2.
  { vm_compute. repeat constructor; [by exists 2|by exists 2|by exists 1]. }
  split; [exact (conj H1 H2)|].
  exact (integral_shares_need_no_correction sheet_integral DisplayRegion 5 H1 H2).
Defined.

(** X7 at a frame of 13 blocks with sizes 3 and 8. *)
Lemma srswor_samples_nested_witness :
  let w := init_world RotRandom sheet_small 7%nat in
  (0 ≤ 3 ≤ 8 ∧ 8 ≤ Z.of_nat (length sheet_small)) ∧
  ∃ smp2,
    srswor 8 w = (Ok smp2, w) ∧
    srswor 3 w = (Ok (take (Z.to_nat 3) smp2), w).
Proof.
  intros w.
  assert (0 ≤ 3 ≤ 8) as H1 by lia.
  assert (8 ≤ Z.of_nat (length sheet_small)) as H2 by (by vm_compute).
  split; [exact (conj H1 H2)|].
  exact (srswor_samples_nested (R:=RotRandom) sheet_small 3 8 7%nat H1 H2).
Defined.

(** X8 at a frame of 13 blocks, a preview of 10 rows, sizes 11 and 13. *)
Lemma srswor_preview_stable_witness :
  let w := init_world RotRandom sheet_small 7%nat in
  (Z.of_nat 10 ≤ 11 ≤ Z.of_nat (length sheet_small) ∧
   Z.of_nat 10 ≤ 13 ≤ Z.of_nat (length sheet_small)) ∧
  ∃ smp smp',
    srswor 11 w = (Ok smp, w) ∧ srswor 13 w = (Ok smp', w) ∧
    head 10 smp = head 10 smp' ∧ length (head 10 smp) = 10%nat.
Proof.
  intros w.
  assert (Z.of_nat 10 ≤ 11 ≤ Z.of_nat (length sheet_small)) as H1 by (by vm_compute).
  assert (Z.of_nat 10 ≤ 13 ≤ Z.of_nat (length sheet_small)) as H2 by (by vm_compute).
  split; [exact (conj H1 H2)|].
  exact (srswor_preview_stable (R:=RotRandom) sheet_small 10 11 13 7%nat H1 H2).
Defined.

(** X9 at two frames of 3 blocks with [n = 2]. *)
Lemma equal_frames_same_positions_witness :
  let obj1 := load_data (blocks_of (Text "a") 3) in
  let obj2 := load_data (blocks_of (Text "b") 3) in
  let w := init_world RotRandom sheet_small 7%nat in
  (length obj1 = length obj2 ∧
   (sample obj1 2 (Some 42) w).1 = Ok (head 2 obj1) ∧
   (sample obj2 2 (Some 42) w).1 = Ok (head 2 obj2)) ∧
  ∃ idx, NoDup idx ∧ length idx = Z.to_nat 2 ∧
         rows_at obj1 idx (head 2 obj1) ∧ rows_at obj2 idx (head 2 obj2).
Proof.
  intros obj1 obj2 w.
  assert (length obj1 = length obj2) as H1 by reflexivity.
  assert ((sample obj1 2 (Some 42) w).1 = Ok (head 2 obj1)) as H2 by (by vm_compute).
  assert ((sample obj2 2 (Some 42) w).1 = Ok (head 2 obj2)) as H3 by (by vm_compute).
  split; [exact (conj H1 (conj H2 H3))|].
  exact (equal_frames_same_positions (R:=RotRandom) obj1 obj2 (head 2 obj1) (head 2 obj2)
           2 w w H1 H2 H3).
Defined.

(** X11 at two cells marked "NA" and strata of 3 and 1 blocks with
    [n = 4]. *)
Lemma stratified_outcome_witness :
  let w := init_world RotRandom sheet_missing 7%nat in
  1 ≤ 4 ≤ Nh_sum (STRAT_VAR_MAP DisplayRegion) (load_data sheet_missing) ∧
  ∃ init last,
    allocate (STRAT_VAR_MAP DisplayRegion) 4 (load_data sheet_missing) =
      Ok (init ++ [last]) ∧
    (0 ≤ nh last ≤ Nh last →
     ∃ final, stratified 4 DisplayRegion w = (Ok (init ++ [last], final), w)) ∧
    (Nh last < nh last → stratified 4 DisplayRegion w = (Raise LargerSample, w)) ∧
    (nh last < 0 → stratified 4 DisplayRegion w = (Raise NegativeRows, w)).
Proof.
  intros w.
  assert (1 ≤ 4 ≤ Nh_sum (STRAT_VAR_MAP DisplayRegion) (load_data sheet_missing))
    as H1 by (by vm_compute).
  split; [exact H1|].
  exact (stratified_outcome (R:=RotRandom) sheet_missing DisplayRegion 4 7%nat H1).
Defined.

(** X12 at strata of 3, 3, 3, 3 and 1 blocks with [n = 4]. *)
Lemma stratified_returns_n_rows_witness :
  (stratified 4 DisplayRegion (init_world RotRandom sheet_small 7%nat)).1 =
    Ok (strata_small, final_small) ∧
  feasible strata_small ∧
  sumZ (nh <$> strata_small) = 4 ∧
  Z.of_nat (length final_small) = 4 ∧
  NoDup (label <$> final_small) ∧
  (∀ r, r ∈ final_small → r ∈ load_data sheet_small).
Proof.
  assert ((stratified 4 DisplayRegion (init_world RotRandom sheet_small 7%nat)).1 =
          Ok (strata_small, final_small)) as H1 by (by vm_compute).
  split; [exact H1|].
  exact (stratified_returns_n_rows (R:=RotRandom) sheet_small DisplayRegion 4 7%nat
           strata_small final_small H1).
Defined.

(** X13 at strata of 3, 3, 3, 3 and 1 blocks with [n = 4]. *)
Lemma stratified_counts_match_allocation_witness :
  (stratified 4 DisplayRegion (init_world RotRandom sheet_small 7%nat)).1 =
    Ok (strata_small, final_small) ∧
  Forall (λ s, Z.of_nat (length (select_eq (STRAT_VAR_MAP DisplayRegion) (key s)
                                           final_small)) = nh s)
         strata_small.
Proof.
  assert ((stratified 4 DisplayRegion (init_world RotRandom sheet_small 7%nat)).1 =
          Ok (strata_small, final_small)) as H1 by (by vm_compute).
  split; [exact H1|].
  exact (stratified_counts_match_allocation (R:=RotRandom) sheet_small DisplayRegion 4
           7%nat strata_small final_small H1).
Defined.

(** X14 at strata of 3, 3, 3, 3 and 1 blocks with [n = 4]. *)
Lemma stratified_sample_in_key_order_witness :
  (stratified 4 DisplayRegion (init_world RotRandom sheet_small 7%nat)).1 =
    Ok (strata_small, final_small) ∧
  ∃ keys, key_of (STRAT_VAR_MAP DisplayRegion) <$> final_small = Some <$> keys ∧
          StronglySorted key_le keys.
Proof.
  assert ((stratified 4 DisplayRegion (init_world RotRandom sheet_small 7%nat)).1 =
          Ok (strata_small, final_small)) as H1 by (by vm_compute).
  split; [exact H1|].
  exact (stratified_sample_in_key_order (R:=RotRandom) sheet_small DisplayRegion 4
           7%nat strata_small final_small H1).
Defined.

(** X16 at the frame of 334 C, 333 A and 333 B blocks with [n = 100]. *)
Lemma binary64_allocation_agrees_witness :
  (0 ≤ 100 ≤ Z.of_nat (length sheet_333) ∧ Z.of_nat (length sheet_333) < 2 ^ 26) ∧
  assign_nh_f64 100 (groupby_size (STRAT_VAR_MAP DisplayRegion) (load_data sheet_333)) =
  assign_nh 100 (groupby_size (STRAT_VAR_MAP DisplayRegion) (load_data sheet_333)).
Proof.
  assert (0 ≤ 100 ≤ Z.of_nat (length sheet_333)) as H1 by (by vm_compute).
  assert (Z.of_nat (length sheet_333) < 2 ^ 26) as H2 by (by vm_compute).
  split; [exact (conj H1 H2)|].
  exact (binary64_allocation_agrees sheet_333 DisplayRegion 100 H1 H2).
Defined.

(** X17 at a frame of 13 blocks. *)
Lemma default_size_is_accepted_witness :
  let w := init_world RotRandom sheet_small 7%nat in
  let n := default_n (df w) in
  sheet_small ≠ [] ∧
  1 ≤ n ≤ Z.of_nat (length sheet_small) ∧
  ∃ smp, srswor n w = (Ok smp, w) ∧
         Z.of_nat (length smp) = Z.min 500 (Z.of_nat (length sheet_small)).
Proof.
  intros w n.
  assert (sheet_small ≠ []) as H1 by discriminate.
  split; [exact H1|].
  exact (default_size_is_accepted (R:=RotRandom) sheet_small 7%nat H1).
Defined.

(** X18 at two cells marked "NA" and strata of 3 and 1 blocks: [N = 4] of
    6 rows. *)
Lemma stratified_census_witness :
  let w := init_world RotRandom sheet_missing 7%nat in
  let N := Nh_sum (STRAT_VAR_MAP DisplayRegion) (load_data sheet_missing) in
  1 ≤ N ∧
  ∃ strata final,
    stratified N DisplayRegion w = (Ok (strata, final), w) ∧
    Forall (λ s, nh s = Nh s) strata ∧
    final ≡ₚ notna (STRAT_VAR_MAP DisplayRegion) (load_data sheet_missing) ∧
    ((∀ r, r ∈ load_data sheet_missing →
           is_Some (key_of (STRAT_VAR_MAP DisplayRegion) r)) →
     final ≡ₚ load_data sheet_missing).
Proof.
  intros w N.
  assert (1 ≤ N) as H1 by (by vm_compute).
  split; [exact H1|].
  exact (stratified_census (R:=RotRandom) sheet_missing DisplayRegion 7%nat H1).
Defined.

(** X19 at a sheet of three rows whose regions are "NA", blank and "None",
    with [n = 1]. *)
Lemma stratified_without_strata_witness :
  let w := init_world RotRandom sheet_unread 7%nat in
  (∀ r, r ∈ load_data sheet_unread → key_of (STRAT_VAR_MAP DisplayRegion) r = None) ∧
  groupby_size (STRAT_VAR_MAP DisplayRegion) (load_data sheet_unread) = [] ∧
  stratified 1 DisplayRegion w =
    (Raise (if decide (1 = 0) then NoObjectsToConcatenate else IndexerOutOfBounds), w) ∧
  (1 ≤ 1 ≤ Z.of_nat (length sheet_unread) → ∃ smp, srswor 1 w = (Ok smp, w)).
Proof.
  intros w.
  assert (∀ r, r ∈ load_data sheet_unread →
               key_of (STRAT_VAR_MAP DisplayRegion) r = None) as H1.
  { apply Forall_forall. apply (bool_decide_unpack _). by vm_compute. }
  split; [exact H1|].
  exact (stratified_without_strata (R:=RotRandom) sheet_unread DisplayRegion 1 7%nat H1).
Defined.

(** X20 at two cells marked "NA" and strata of 3 and 1 blocks with
    [n = 4]. *)
Lemma stratified_within_valid_rows_witness :
  (stratified 4 DisplayRegion (init_world RotRandom sheet_missing 7%nat)).1 =
    Ok (strata_missing, final_missing) ∧
  0 ≤ 4 ≤ Nh_sum (STRAT_VAR_MAP DisplayRegion) (load_data sheet_missing) ∧
  Nh_sum (STRAT_VAR_MAP DisplayRegion) (load_data sheet_missing) ≤
    Z.of_nat (length sheet_missing) ∧
  (∀ r, r ∈ final_missing → is_Some (key_of (STRAT_VAR_MAP DisplayRegion) r)).
Proof.
  assert ((stratified 4 DisplayRegion (init_world RotRandom sheet_missing 7%nat)).1 =
          Ok (strata_missing, final_missing)) as H1 by (by vm_compute).
  split; [exact H1|].
  exact (stratified_within_valid_rows (R:=RotRandom) sheet_missing DisplayRegion 4 7%nat
           strata_missing final_missing H1).
Defined.
